(** * CCP message codec (ilp-protocol-ccp, [src/index.ts])

    A shallow embedding of the route-control / route-update / response
    codecs of the Connector-to-Connector Protocol, together with the
    platform and library primitives they are written against, and the
    properties of the codec that the specification states.

    Conventions.
    - A [Buffer] is the list of its bytes, each byte a [Z] in [0, 255].
    - A JavaScript string is the list of its UTF-16 code units.
    - A JavaScript [number] that holds an integer is a [Z].
    - A [throw] is the [Throw] branch of [Result]; code that can throw is
      written in the error monad, with [x <- m ;; k] for sequencing.
    - [Date.now()] is an explicit argument [now] (milliseconds). *)

From Stdlib Require Import String Ascii ZArith List Bool Lia.
Import ListNotations.
Local Open Scope Z_scope.

(* ===================================================================== *)
(** ** JavaScript values *)
(* ===================================================================== *)

Definition Buffer := list Z.
Definition JsString := list Z.

(** A string literal of the source, as code units. *)
Definition js (s : string) : JsString :=
  map (fun a => Z.of_N (N_of_ascii a)) (list_ascii_of_string s).

(** Failures raised inside the OER reader and writer (oer-utils).
    [JsError] below lists what can be thrown: the two error classes the
    codec itself throws, with their message; a failure of the OER
    primitives; the identifier codec's failure; a failure inside the
    envelope codec (ilp-packet). *)
Inductive OerFailure :=
| UIntNegative
| UIntLengthNotPositive
| UIntLengthTooLarge
| UIntDoesNotFit
| ReadOutOfBounds
| LengthPrefixNotCanonical
| VarUIntEmpty
| VarUIntTooLarge.

Inductive JsError :=
| TypeError (message : JsString)
| Error (message : JsString)
| OerError (failure : OerFailure)
| FormatError (message : JsString)
| EnvelopeError (message : JsString).

Inductive Result (A : Type) :=
| Ok (a : A)
| Throw (e : JsError).
Arguments Ok {A} a.
Arguments Throw {A} e.

Definition bind {A B} (m : Result A) (k : A -> Result B) : Result B :=
  match m with
  | Ok a => k a
  | Throw e => Throw e
  end.

Notation "x <- m ;; k" := (bind m (fun x => k))
  (at level 61, m at next level, right associativity).
Notation "' pat <- m ;; k" := (bind m (fun x => match x with pat => k end))
  (at level 61, pat pattern, m at next level, right associativity).

(** [a.equals(b)] on buffers: same length and same bytes. *)
Fixpoint buffer_equals (a b : Buffer) : bool :=
  match a, b with
  | [], [] => true
  | x :: a', y :: b' => (x =? y) && buffer_equals a' b'
  | _, _ => false
  end.

(** [a !== b] on strings compares code units. *)
Definition string_eqb (a b : JsString) : bool := buffer_equals a b.

(** [hay.includes(needle)]. *)
Definition Includes (hay needle : JsString) : Prop :=
  exists pre post, hay = pre ++ needle ++ post.

Fixpoint startsWith (s p : JsString) {struct p} : bool :=
  match p, s with
  | [], _ => true
  | x :: p', y :: s' => (x =? y) && startsWith s' p'
  | _ :: _, [] => false
  end.

Fixpoint includes (hay needle : JsString) : bool :=
  startsWith hay needle ||
  match hay with
  | [] => false
  | _ :: hay' => includes hay' needle
  end.

(* --------------------------------------------------------------------- *)
(** *** [Buffer.from(s, 'ascii')] and [buf.toString('ascii')]

    Encoding keeps the low byte of every code unit (as 'latin1' does);
    decoding clears the high bit of every byte. *)

Definition bufferFromAscii (s : JsString) : Buffer :=
  map (fun c => Z.land c 255) s.

Definition toStringAscii (b : Buffer) : JsString :=
  map (fun x => Z.land x 127) b.

(* --------------------------------------------------------------------- *)
(** *** [Buffer.from(s, 'utf8')] and [buf.toString('utf8')]

    The encoder pairs surrogates and writes U+FFFD for a lone one.  The
    decoder accepts exactly the well-formed sequences and yields U+FFFD
    for each maximal ill-formed prefix. *)

Definition isHighSurrogate (c : Z) : bool := (0xD800 <=? c) && (c <=? 0xDBFF).
Definition isLowSurrogate (c : Z) : bool := (0xDC00 <=? c) && (c <=? 0xDFFF).

Definition REPLACEMENT : Buffer := [0xEF; 0xBF; 0xBD].

Definition utf8Bytes (cp : Z) : Buffer :=
  if cp <? 0x80 then [cp]
  else if cp <? 0x800 then [0xC0 + cp / 64; 0x80 + cp mod 64]
  else if cp <? 0x10000 then
    [0xE0 + cp / 4096; 0x80 + (cp / 64) mod 64; 0x80 + cp mod 64]
  else
    [0xF0 + cp / 262144; 0x80 + (cp / 4096) mod 64;
     0x80 + (cp / 64) mod 64; 0x80 + cp mod 64].

Fixpoint bufferFromUtf8 (s : JsString) : Buffer :=
  match s with
  | [] => []
  | c :: rest =>
    if isHighSurrogate c then
      match rest with
      | d :: rest' =>
        if isLowSurrogate d
        then utf8Bytes (0x10000 + (c - 0xD800) * 0x400 + (d - 0xDC00))
               ++ bufferFromUtf8 rest'
        else REPLACEMENT ++ bufferFromUtf8 rest
      | [] => REPLACEMENT
      end
    else if isLowSurrogate c then REPLACEMENT ++ bufferFromUtf8 rest
    else utf8Bytes c ++ bufferFromUtf8 rest
  end.

Definition inRange (lo hi x : Z) : bool := (lo <=? x) && (x <=? hi).
Definition isContinuation (x : Z) : bool := inRange 0x80 0xBF x.

(** Code units of a decoded code point. *)
Definition codeUnits (cp : Z) : JsString :=
  if cp <? 0x10000 then [cp]
  else [0xD800 + (cp - 0x10000) / 0x400; 0xDC00 + (cp - 0x10000) mod 0x400].

(** Bounds on the second byte, by lead byte (three- and four-byte forms). *)
Definition secondLo (b1 : Z) : Z :=
  if b1 =? 0xE0 then 0xA0 else if b1 =? 0xF0 then 0x90 else 0x80.
Definition secondHi (b1 : Z) : Z :=
  if b1 =? 0xED then 0x9F else if b1 =? 0xF4 then 0x8F else 0xBF.

Fixpoint toStringUtf8 (b : Buffer) : JsString :=
  match b with
  | [] => []
  | b1 :: r1 =>
    if inRange 0 0x7F b1 then b1 :: toStringUtf8 r1
    else if inRange 0xC2 0xDF b1 then
      match r1 with
      | b2 :: r2 =>
        if isContinuation b2
        then ((b1 - 0xC0) * 64 + (b2 - 0x80)) :: toStringUtf8 r2
        else 0xFFFD :: toStringUtf8 r1
      | [] => [0xFFFD]
      end
    else if inRange 0xE0 0xEF b1 then
      match r1 with
      | b2 :: r2 =>
        if inRange (secondLo b1) (secondHi b1) b2 then
          match r2 with
          | b3 :: r3 =>
            if isContinuation b3
            then ((b1 - 0xE0) * 4096 + (b2 - 0x80) * 64 + (b3 - 0x80))
                   :: toStringUtf8 r3
            else 0xFFFD :: toStringUtf8 r2
          | [] => [0xFFFD]
          end
        else 0xFFFD :: toStringUtf8 r1
      | [] => [0xFFFD]
      end
    else if inRange 0xF0 0xF4 b1 then
      match r1 with
      | b2 :: r2 =>
        if inRange (secondLo b1) (secondHi b1) b2 then
          match r2 with
          | b3 :: r3 =>
            if isContinuation b3 then
              match r3 with
              | b4 :: r4 =>
                if isContinuation b4
                then codeUnits ((b1 - 0xF0) * 262144 + (b2 - 0x80) * 4096
                                + (b3 - 0x80) * 64 + (b4 - 0x80))
                       ++ toStringUtf8 r4
                else 0xFFFD :: toStringUtf8 r3
              | [] => [0xFFFD]
              end
            else 0xFFFD :: toStringUtf8 r2
          | [] => [0xFFFD]
          end
        else 0xFFFD :: toStringUtf8 r1
      | [] => [0xFFFD]
      end
    else 0xFFFD :: toStringUtf8 r1
  end.

(* --------------------------------------------------------------------- *)
(** *** [Buffer.from(s, 'base64')] *)

Definition base64Value (c : Z) : option Z :=
  if inRange 65 90 c then Some (c - 65)
  else if inRange 97 122 c then Some (c - 71)
  else if inRange 48 57 c then Some (c + 4)
  else if (c =? 43) || (c =? 45) then Some 62
  else if (c =? 47) || (c =? 95) then Some 63
  else None.

(** Sextets up to the first padding character; other characters are skipped. *)
Fixpoint base64Sextets (s : JsString) : list Z :=
  match s with
  | [] => []
  | c :: rest =>
    if c =? 61 then []
    else match base64Value c with
         | Some v => v :: base64Sextets rest
         | None => base64Sextets rest
         end
  end.

Fixpoint base64Bytes (v : list Z) : Buffer :=
  match v with
  | a :: b :: c :: d :: rest =>
    [a * 4 + b / 16; (b mod 16) * 16 + c / 4; (c mod 4) * 64 + d]
      ++ base64Bytes rest
  | [a; b; c] => [a * 4 + b / 16; (b mod 16) * 16 + c / 4]
  | [a; b] => [a * 4 + b / 16]
  | _ => []
  end.

Definition bufferFromBase64 (s : JsString) : Buffer :=
  base64Bytes (base64Sextets s).

(* --------------------------------------------------------------------- *)
(** *** [Buffer.alloc(n)] *)

Definition bufferAlloc (n : nat) : Buffer := repeat 0 n.

(* --------------------------------------------------------------------- *)
(** *** [a << k] on numbers: the count is taken modulo 32 and the result
    is a signed 32-bit integer. *)

Definition toInt32 (x : Z) : Z := (x + 2 ^ 31) mod 2 ^ 32 - 2 ^ 31.
Definition jsShiftLeft (a k : Z) : Z := toInt32 (Z.shiftl a (Z.land k 31)).

(* ===================================================================== *)
(** ** The OER reader and writer (oer-utils)

    [Writer] is the sequence of bytes written so far ([getBuffer]);
    [Reader] is the sequence of bytes still to be read. *)
(* ===================================================================== *)

Module Oer.

Definition MAX_INT_BYTES : Z := 6.

(** [buffer.writeUIntBE(value, 0, length)] on a fresh buffer. *)
Fixpoint uintBE (length : nat) (value : Z) : Buffer :=
  match length with
  | O => []
  | S n => uintBE n (value / 256) ++ [value mod 256]
  end.

(** [buffer.readUIntBE(0, buffer.length)]. *)
Definition readUIntBE (b : Buffer) : Z :=
  fold_left (fun acc x => acc * 256 + x) b 0.

(** [Math.ceil(value.toString(2).length / 8)]. *)
Definition byteLength (value : Z) : Z := Z.log2 value / 8 + 1.

Definition Writer := Buffer.
Definition newWriter : Writer := [].
Definition getBuffer (w : Writer) : Buffer := w.

Definition write (w : Writer) (b : Buffer) : Writer := w ++ b.

Definition writeUInt (w : Writer) (value length : Z) : Result Writer :=
  if value <? 0 then Throw (OerError UIntNegative)
  else if length <=? 0 then Throw (OerError UIntLengthNotPositive)
  else if MAX_INT_BYTES <? length then Throw (OerError UIntLengthTooLarge)
  else if 256 ^ length - 1 <? value then Throw (OerError UIntDoesNotFit)
  else Ok (write w (uintBE (Z.to_nat length) value)).

Definition writeUInt8 (w : Writer) (value : Z) := writeUInt w value 1.
Definition writeUInt16 (w : Writer) (value : Z) := writeUInt w value 2.
Definition writeUInt32 (w : Writer) (value : Z) := writeUInt w value 4.

Definition writeVarOctetString (w : Writer) (buffer : Buffer) : Result Writer :=
  let len := Z.of_nat (length buffer) in
  if len <=? 127 then
    w <- writeUInt8 w len ;;
    Ok (write w buffer)
  else
    let lengthOfLength := byteLength len in
    w <- writeUInt8 w (Z.lor 0x80 lengthOfLength) ;;
    w <- writeUInt w len lengthOfLength ;;
    Ok (write w buffer).

Definition writeVarUInt (w : Writer) (value : Z) : Result Writer :=
  if value <? 0 then Throw (OerError UIntNegative)
  else
    let lengthOfValue := byteLength value in
    if MAX_INT_BYTES <? lengthOfValue then Throw (OerError UIntLengthTooLarge)
    else writeVarOctetString w (uintBE (Z.to_nat lengthOfValue) value).

Definition Reader := Buffer.
Definition newReader (b : Buffer) : Reader := b.

Definition read (r : Reader) (bytes : Z) : Result (Buffer * Reader) :=
  if Z.of_nat (length r) <? bytes then Throw (OerError ReadOutOfBounds)
  else Ok (firstn (Z.to_nat bytes) r, skipn (Z.to_nat bytes) r).

Definition readUInt (r : Reader) (length : Z) : Result (Z * Reader) :=
  if length <=? 0 then Throw (OerError UIntLengthNotPositive)
  else if MAX_INT_BYTES <? length then Throw (OerError UIntLengthTooLarge)
  else
    '(b, r) <- read r length ;;
    Ok (readUIntBE b, r).

Definition readUInt8 (r : Reader) := readUInt r 1.
Definition readUInt16 (r : Reader) := readUInt r 2.
Definition readUInt32 (r : Reader) := readUInt r 4.

Definition readLengthPrefix (r : Reader) : Result (Z * Reader) :=
  '(len, r) <- readUInt8 r ;;
  if Z.land len 0x80 =? 0 then Ok (len, r)
  else
    let lengthPrefixLength := Z.land len 0x7F in
    '(actualLength, r) <- readUInt r lengthPrefixLength ;;
    let minLength := Z.max 128 (jsShiftLeft 1 ((lengthPrefixLength - 1) * 8)) in
    if actualLength <? minLength then Throw (OerError LengthPrefixNotCanonical)
    else Ok (actualLength, r).

Definition readVarOctetString (r : Reader) : Result (Buffer * Reader) :=
  '(len, r) <- readLengthPrefix r ;;
  read r len.

Definition readVarUInt (r : Reader) : Result (Z * Reader) :=
  '(b, r) <- readVarOctetString r ;;
  if Z.of_nat (length b) =? 0 then Throw (OerError VarUIntEmpty)
  else if MAX_INT_BYTES <? Z.of_nat (length b) then Throw (OerError VarUIntTooLarge)
  else Ok (readUIntBE b, r).

End Oer.

(** [for (const x of xs) { ... writer ... }]. *)
Fixpoint writeEach {A} (writeOne : Oer.Writer -> A -> Result Oer.Writer)
    (w : Oer.Writer) (xs : list A) : Result Oer.Writer :=
  match xs with
  | [] => Ok w
  | x :: xs' => w <- writeOne w x ;; writeEach writeOne w xs'
  end.

(** [for (let i = 0; i < count; i++) { xs.push(... reader ...) }]. *)
Fixpoint readEach {A} (readOne : Oer.Reader -> Result (A * Oer.Reader))
    (count : nat) (r : Oer.Reader) : Result (list A * Oer.Reader) :=
  match count with
  | O => Ok ([], r)
  | S n =>
    '(x, r) <- readOne r ;;
    '(xs, r) <- readEach readOne n r ;;
    Ok (x :: xs, r)
  end.

Definition mapFst {A B S} (f : A -> B) (m : Result (A * S)) : Result (B * S) :=
  '(a, s) <- m ;; Ok (f a, s).

(* ===================================================================== *)
(** ** Identifier codec ([./uuid]) *)
(* ===================================================================== *)

Module Uuid.

(** [buf.toString('hex')]. *)
Definition hexDigit (v : Z) : Z := if v <? 10 then 48 + v else 87 + v.

Definition toHex (b : Buffer) : JsString :=
  flat_map (fun x => [hexDigit (x / 16); hexDigit (x mod 16)]) b.

(** Hexadecimal digits, either case. *)
Definition hexValue (c : Z) : option Z :=
  if inRange 48 57 c then Some (c - 48)
  else if inRange 97 102 c then Some (c - 87)
  else if inRange 65 70 c then Some (c - 55)
  else None.

Fixpoint fromHex (s : JsString) : option Buffer :=
  match s with
  | [] => Some []
  | h :: l :: rest =>
    match hexValue h, hexValue l, fromHex rest with
    | Some a, Some b, Some bs => Some (a * 16 + b :: bs)
    | _, _, _ => None
    end
  | [_] => None
  end.

Definition HYPHEN : Z := 45.

Definition hyphenate (h : JsString) : JsString :=
  firstn 8 h ++ [HYPHEN] ++ firstn 4 (skipn 8 h) ++ [HYPHEN]
    ++ firstn 4 (skipn 12 h) ++ [HYPHEN] ++ firstn 4 (skipn 16 h) ++ [HYPHEN]
    ++ skipn 20 h.

Definition hyphenPositions (s : JsString) : bool :=
  (nth 8 s 0 =? HYPHEN) && (nth 13 s 0 =? HYPHEN)
  && (nth 18 s 0 =? HYPHEN) && (nth 23 s 0 =? HYPHEN).

Definition dehyphenate (s : JsString) : JsString :=
  firstn 8 s ++ firstn 4 (skipn 9 s) ++ firstn 4 (skipn 14 s)
    ++ firstn 4 (skipn 19 s) ++ skipn 24 s.

(** Modelled from the spec: the identifier codec's two directions
    (section 4.1; the file [./uuid] that index.ts imports).  Sixteen raw
    bytes become the canonical lowercase hyphenated 36-character string. *)
Definition format (b : Buffer) : JsString := hyphenate (toHex b).

(** Modelled from the spec: the identifier codec, string to sixteen raw
    bytes (section 4.1); the input must be 36 characters long with the
    four hyphens in place and hexadecimal digits elsewhere. *)
Definition parse (s : JsString) : option Buffer :=
  if (length s =? 36)%nat && hyphenPositions s
  then fromHex (dehyphenate s)
  else None.

(** Modelled from the spec: [readUuid(reader)] of [./uuid], sixteen raw
    bytes read and formatted (sections 4.1, 4.4, 4.5). *)
Definition readUuid (reader : Oer.Reader) : Result (JsString * Oer.Reader) :=
  mapFst format (Oer.read reader 16).

(** Modelled from the spec: [writeUuid(writer, uuid)] of [./uuid]; a
    string of the wrong length or shape fails with FormatError. *)
Definition writeUuid (writer : Oer.Writer) (uuid : JsString) : Result Oer.Writer :=
  match parse uuid with
  | Some b => Ok (Oer.write writer b)
  | None => Throw (FormatError uuid)
  end.

End Uuid.

(* ===================================================================== *)
(** ** Data model (index.ts, lines 11-67) *)
(* ===================================================================== *)

Record CcpRouteControlRequest := {
  speaker : JsString;
  lastKnownRoutingTableId : JsString;
  lastKnownEpoch : Z;
  features : list JsString
}.

Record CcpRoutePropCommon := {
  isWellKnown : bool;
  isTransitive : bool;
  isPartial : bool
}.

(** The union [CcpRoutePropBuffer | CcpRoutePropString]; the discriminant
    [isUtf8] is the constructor. *)
Inductive CcpRouteProp :=
| CcpRoutePropBuffer (common : CcpRoutePropCommon) (id : Z) (value : Buffer)
| CcpRoutePropString (common : CcpRoutePropCommon) (id : Z) (value : JsString).

Definition propCommon (p : CcpRouteProp) : CcpRoutePropCommon :=
  match p with
  | CcpRoutePropBuffer c _ _ => c
  | CcpRoutePropString c _ _ => c
  end.

Definition propId (p : CcpRouteProp) : Z :=
  match p with
  | CcpRoutePropBuffer _ i _ => i
  | CcpRoutePropString _ i _ => i
  end.

Definition isUtf8 (p : CcpRouteProp) : bool :=
  match p with
  | CcpRoutePropBuffer _ _ _ => false
  | CcpRoutePropString _ _ _ => true
  end.

Record CcpRoute := {
  prefix : JsString;
  path : list JsString;
  auth : Buffer;
  props : list CcpRouteProp
}.

Record CcpRouteUpdateRequest := {
  routingTableId : JsString;
  currentEpochIndex : Z;
  fromEpochIndex : Z;
  toEpochIndex : Z;
  newRoutes : list CcpRoute;
  withdrawnRoutes : list JsString
}.

(** The envelope records of ilp-packet; [expiresAt] is the Date's
    millisecond timestamp, which is also what [Number(date)] yields. *)
Record IlpPrepare := {
  amount : JsString;
  destination : JsString;
  executionCondition : Buffer;
  expiresAt : Z;
  data : Buffer
}.

Module Fulfill.
Record IlpFulfill := {
  fulfillment : Buffer;
  data : Buffer
}.
End Fulfill.
Import Fulfill (IlpFulfill).

(* ===================================================================== *)
(** ** Constants (index.ts, lines 5-9) *)
(* ===================================================================== *)

Definition CCP_CONTROL_DESTINATION : JsString := js "peer.route.control".
Definition CCP_UPDATE_DESTINATION : JsString := js "peer.route.update".
Definition PEER_PROTOCOL_FULFILLMENT : Buffer := bufferAlloc 32.
Definition PEER_PROTOCOL_CONDITION : Buffer :=
  bufferFromBase64 (js "Zmh6rfhivXdsj8GLjp+OIAiXFIVu4jOzkCpZHQ1fKSU=").
Definition PEER_PROTOCOL_EXPIRY_DURATION : Z := 60000.

(** [Boolean(x)] on a number. *)
Definition jsBoolean (x : Z) : bool := negb (x =? 0).

(* ===================================================================== *)
(** ** The codec (index.ts, lines 69-300)

    The envelope codec of ilp-packet is a collaborator: the four
    functions are parameters of the section. *)
(* ===================================================================== *)

Section Ccp.

Variable serializeIlpPrepare : IlpPrepare -> Result Buffer.
Variable deserializeIlpPrepare : Buffer -> Result IlpPrepare.
Variable serializeIlpFulfill : IlpFulfill -> Result Buffer.
Variable deserializeIlpFulfill : Buffer -> Result IlpFulfill.

(** Payload of a control request, after the envelope checks (lines 84-103). *)
Definition readControlPayload (payload : Buffer) : Result CcpRouteControlRequest :=
  let reader := Oer.newReader payload in
  '(speaker, reader) <- mapFst toStringAscii (Oer.readVarOctetString reader) ;;
  '(lastKnownRoutingTableId, reader) <- Uuid.readUuid reader ;;
  '(lastKnownEpoch, reader) <- Oer.readUInt32 reader ;;
  '(featureCount, reader) <- Oer.readVarUInt reader ;;
  '(features, reader) <-
    readEach (fun reader => mapFst toStringUtf8 (Oer.readVarOctetString reader))
             (Z.to_nat featureCount) reader ;;
  Ok {| speaker := speaker;
        lastKnownRoutingTableId := lastKnownRoutingTableId;
        lastKnownEpoch := lastKnownEpoch;
        features := features |}.

Definition deserializeCcpRouteControlRequest (now : Z) (request : Buffer)
  : Result CcpRouteControlRequest :=
  ilp <- deserializeIlpPrepare request ;;
  if negb (string_eqb (destination ilp) CCP_CONTROL_DESTINATION) then
    Throw (TypeError (js "packet is not a CCP route control request."))
  else if negb (buffer_equals PEER_PROTOCOL_CONDITION (executionCondition ilp)) then
    Throw (Error (js "packet does not contain correct condition for a peer protocol request."))
  else if expiresAt ilp <? now then
    Throw (Error (js "CCP route control request packet is expired."))
  else readControlPayload (data ilp).

(** Payload of a control request (lines 107-119). *)
Definition writeControlPayload (request : CcpRouteControlRequest) : Result Buffer :=
  let writer := Oer.newWriter in
  writer <- Oer.writeVarOctetString writer (bufferFromAscii (speaker request)) ;;
  writer <- Uuid.writeUuid writer (lastKnownRoutingTableId request) ;;
  writer <- Oer.writeUInt32 writer (lastKnownEpoch request) ;;
  writer <- Oer.writeVarUInt writer (Z.of_nat (length (features request))) ;;
  writer <- writeEach (fun writer feature =>
                         Oer.writeVarOctetString writer (bufferFromUtf8 feature))
                      writer (features request) ;;
  Ok (Oer.getBuffer writer).

Definition serializeCcpRouteControlRequest (now : Z) (request : CcpRouteControlRequest)
  : Result Buffer :=
  payload <- writeControlPayload request ;;
  serializeIlpPrepare {|
    amount := js "0";
    destination := CCP_CONTROL_DESTINATION;
    executionCondition := PEER_PROTOCOL_CONDITION;
    expiresAt := now + PEER_PROTOCOL_EXPIRY_DURATION;
    data := payload
  |}.

(** One property (lines 171-199). *)
Definition readProp (reader : Oer.Reader) : Result (CcpRouteProp * Oer.Reader) :=
  '(meta, reader) <- Oer.readUInt8 reader ;;
  let isWellKnown := jsBoolean (Z.land meta 0x80) in
  let isTransitive := jsBoolean (Z.land meta 0x40) in
  let isPartial := jsBoolean (Z.land meta 0x20) in
  let isUtf8 := jsBoolean (Z.land meta 0x10) in
  '(id, reader) <- Oer.readUInt16 reader ;;
  '(value, reader) <- Oer.readVarOctetString reader ;;
  let incompleteProp := {| isWellKnown := isWellKnown;
                           isTransitive := isTransitive;
                           isPartial := isPartial |} in
  if isUtf8
  then Ok (CcpRoutePropString incompleteProp id (toStringUtf8 value), reader)
  else Ok (CcpRoutePropBuffer incompleteProp id value, reader).

(** One route (lines 158-207). *)
Definition readRoute (reader : Oer.Reader) : Result (CcpRoute * Oer.Reader) :=
  '(prefix, reader) <- mapFst toStringAscii (Oer.readVarOctetString reader) ;;
  '(pathLength, reader) <- Oer.readVarUInt reader ;;
  '(path, reader) <-
    readEach (fun reader => mapFst toStringAscii (Oer.readVarOctetString reader))
             (Z.to_nat pathLength) reader ;;
  '(auth, reader) <- Oer.read reader 32 ;;
  '(propCount, reader) <- Oer.readVarUInt reader ;;
  '(props, reader) <- readEach readProp (Z.to_nat propCount) reader ;;
  Ok ({| prefix := prefix; path := path; auth := auth; props := props |}, reader).

(** Payload of an update request, after the envelope checks (lines 145-223). *)
Definition readUpdatePayload (payload : Buffer) : Result CcpRouteUpdateRequest :=
  let reader := Oer.newReader payload in
  '(routingTableId, reader) <- Uuid.readUuid reader ;;
  '(currentEpochIndex, reader) <- Oer.readUInt32 reader ;;
  '(fromEpochIndex, reader) <- Oer.readUInt32 reader ;;
  '(toEpochIndex, reader) <- Oer.readUInt32 reader ;;
  '(newRoutesCount, reader) <- Oer.readVarUInt reader ;;
  '(newRoutes, reader) <- readEach readRoute (Z.to_nat newRoutesCount) reader ;;
  '(withdrawnRoutesCount, reader) <- Oer.readVarUInt reader ;;
  '(withdrawnRoutes, reader) <-
    readEach (fun reader => mapFst toStringUtf8 (Oer.readVarOctetString reader))
             (Z.to_nat withdrawnRoutesCount) reader ;;
  Ok {| routingTableId := routingTableId;
        currentEpochIndex := currentEpochIndex;
        fromEpochIndex := fromEpochIndex;
        toEpochIndex := toEpochIndex;
        newRoutes := newRoutes;
        withdrawnRoutes := withdrawnRoutes |}.

Definition deserializeCcpRouteUpdateRequest (now : Z) (request : Buffer)
  : Result CcpRouteUpdateRequest :=
  ilp <- deserializeIlpPrepare request ;;
  if negb (string_eqb (destination ilp) CCP_UPDATE_DESTINATION) then
    Throw (TypeError (js "packet is not a CCP route update request."))
  else if negb (buffer_equals PEER_PROTOCOL_CONDITION (executionCondition ilp)) then
    Throw (Error (js "packet does not contain correct condition for a peer protocol request."))
  else if expiresAt ilp <? now then
    Throw (Error (js "CCP route update request packet is expired."))
  else readUpdatePayload (data ilp).

(** The metadata byte of a property (lines 251-263). *)
Definition propMeta (prop : CcpRouteProp) : Z :=
  let meta := 0 in
  let meta := Z.lor meta (if isWellKnown (propCommon prop) then 0x80 else 0) in
  let meta :=
    if negb (isWellKnown (propCommon prop)) then
      let meta := Z.lor meta (if isTransitive (propCommon prop) then 0x40 else 0) in
      if isTransitive (propCommon prop)
      then Z.lor meta (if isPartial (propCommon prop) then 0x20 else 0)
      else meta
    else meta in
  let meta := Z.lor meta (if isUtf8 prop then 0x10 else 0) in
  meta.

(** One property (lines 250-270). *)
Definition writeProp (writer : Oer.Writer) (prop : CcpRouteProp) : Result Oer.Writer :=
  let meta := propMeta prop in
  writer <- Oer.writeUInt8 writer meta ;;
  writer <- Oer.writeUInt16 writer (propId prop) ;;
  Oer.writeVarOctetString writer
    match prop with
    | CcpRoutePropString _ _ value => bufferFromUtf8 value
    | CcpRoutePropBuffer _ _ value => value
    end.

(** One route (lines 236-271). *)
Definition writeRoute (writer : Oer.Writer) (route : CcpRoute) : Result Oer.Writer :=
  writer <- Oer.writeVarOctetString writer (bufferFromAscii (prefix route)) ;;
  writer <- Oer.writeVarUInt writer (Z.of_nat (length (path route))) ;;
  writer <- writeEach (fun writer hop =>
                         Oer.writeVarOctetString writer (bufferFromAscii hop))
                      writer (path route) ;;
  if negb (length (auth route) =? 32)%nat then
    Throw (Error (js "route auth must be 32 bytes. prefix=" ++ prefix route))
  else
    let writer := Oer.write writer (auth route) in
    writer <- Oer.writeVarUInt writer (Z.of_nat (length (props route))) ;;
    writeEach writeProp writer (props route).

(** Payload of an update request (lines 227-276). *)
Definition writeUpdatePayload (request : CcpRouteUpdateRequest) : Result Buffer :=
  let writer := Oer.newWriter in
  writer <- Uuid.writeUuid writer (routingTableId request) ;;
  writer <- Oer.writeUInt32 writer (currentEpochIndex request) ;;
  writer <- Oer.writeUInt32 writer (fromEpochIndex request) ;;
  writer <- Oer.writeUInt32 writer (toEpochIndex request) ;;
  writer <- Oer.writeVarUInt writer (Z.of_nat (length (newRoutes request))) ;;
  writer <- writeEach writeRoute writer (newRoutes request) ;;
  writer <- Oer.writeVarUInt writer (Z.of_nat (length (withdrawnRoutes request))) ;;
  writer <- writeEach (fun writer route =>
                         Oer.writeVarOctetString writer (bufferFromAscii route))
                      writer (withdrawnRoutes request) ;;
  Ok (Oer.getBuffer writer).

Definition serializeCcpRouteUpdateRequest (now : Z) (request : CcpRouteUpdateRequest)
  : Result Buffer :=
  payload <- writeUpdatePayload request ;;
  serializeIlpPrepare {|
    amount := js "0";
    destination := CCP_UPDATE_DESTINATION;
    executionCondition := PEER_PROTOCOL_CONDITION;
    expiresAt := now + PEER_PROTOCOL_EXPIRY_DURATION;
    data := payload
  |}.

Definition deserializeCcpResponse (response : Buffer) : Result unit :=
  ilp <- deserializeIlpFulfill response ;;
  let fulfillment := Fulfill.fulfillment ilp in
  if negb (buffer_equals PEER_PROTOCOL_FULFILLMENT fulfillment) then
    Throw (Error (js "CCP response does not contain the expected fulfillment."))
  else Ok tt.

Definition serializeCcpResponse : Result Buffer :=
  serializeIlpFulfill {|
    Fulfill.fulfillment := PEER_PROTOCOL_FULFILLMENT;
    Fulfill.data := bufferAlloc 0
  |}.

End Ccp.

(* ===================================================================== *)
(** ** Valid records

    What the data model (section 3) requires of a record, as decidable
    predicates.  Lengths and counts are bounded by what a six-byte OER
    length can carry. *)
(* ===================================================================== *)

(** A length or count that the OER writer can encode. *)
Definition fitsOer (n : nat) : bool := Z.of_nat n <? 2 ^ 48.

(** Text restricted to 7-bit ASCII, as addresses and prefixes are. *)
Definition isAsciiText (s : JsString) : bool :=
  forallb (inRange 0 127) s && fitsOer (length s).

(** A string whose surrogates are paired: Unicode text. *)
Fixpoint isPaired (s : JsString) : bool :=
  match s with
  | [] => true
  | c :: rest =>
    if isHighSurrogate c then
      match rest with
      | d :: rest' => isLowSurrogate d && isPaired rest'
      | [] => false
      end
    else inRange 0 0xFFFF c && negb (isLowSurrogate c) && isPaired rest
  end.

Definition isUnicodeText (s : JsString) : bool :=
  isPaired s && fitsOer (length (bufferFromUtf8 s)).

Definition isUInt16 (x : Z) : bool := inRange 0 0xFFFF x.
Definition isUInt32 (x : Z) : bool := inRange 0 0xFFFFFFFF x.

Module UuidText.

Definition isLowerHex (c : Z) : bool := inRange 48 57 c || inRange 97 102 c.

(** The canonical lowercase hyphenated 36-character form. *)
Definition isCanonical (s : JsString) : bool :=
  (length s =? 36)%nat && Uuid.hyphenPositions s
  && forallb isLowerHex (Uuid.dehyphenate s).

End UuidText.

(** The flag dependency rule of section 4.3. *)
Definition flagsConsistent (c : CcpRoutePropCommon) : bool :=
  (negb (isTransitive c) || negb (isWellKnown c))
  && (negb (isPartial c) || (isTransitive c && negb (isWellKnown c))).

Definition validProp (p : CcpRouteProp) : bool :=
  flagsConsistent (propCommon p) && isUInt16 (propId p)
  && match p with
     | CcpRoutePropBuffer _ _ value => fitsOer (length value)
     | CcpRoutePropString _ _ value => isUnicodeText value
     end.

Definition validRoute (r : CcpRoute) : bool :=
  isAsciiText (prefix r)
  && fitsOer (length (path r)) && forallb isAsciiText (path r)
  && (length (auth r) =? 32)%nat
  && fitsOer (length (props r)) && forallb validProp (props r).

Definition validUpdate (u : CcpRouteUpdateRequest) : bool :=
  UuidText.isCanonical (routingTableId u)
  && isUInt32 (currentEpochIndex u)
  && isUInt32 (fromEpochIndex u)
  && isUInt32 (toEpochIndex u)
  && fitsOer (length (newRoutes u)) && forallb validRoute (newRoutes u)
  && fitsOer (length (withdrawnRoutes u)) && forallb isAsciiText (withdrawnRoutes u).

Definition validControl (r : CcpRouteControlRequest) : bool :=
  isAsciiText (speaker r)
  && UuidText.isCanonical (lastKnownRoutingTableId r)
  && isUInt32 (lastKnownEpoch r)
  && fitsOer (length (features r)) && forallb isUnicodeText (features r).

(** Two envelopes that differ at most in their amount. *)
Definition sameButAmount (a b : IlpPrepare) : Prop :=
  destination a = destination b
  /\ executionCondition a = executionCondition b
  /\ expiresAt a = expiresAt b
  /\ data a = data b.

(** An envelope as the request encoders build it. *)
Definition peerPrepare (dest : JsString) (expiry : Z) (payload : Buffer) : IlpPrepare :=
  {| amount := js "0";
     destination := dest;
     executionCondition := PEER_PROTOCOL_CONDITION;
     expiresAt := expiry;
     data := payload |}.

(* ===================================================================== *)
(** ** A reference envelope codec

    An instance of the envelope interface in which every field is framed
    by its element count.  It is not the wire format of ilp-packet (the
    counts and the expiry are single list elements, not confined to a
    byte); it lets the codec run end to end on concrete requests. *)
(* ===================================================================== *)

Module Loopback.

Definition frame (l : list Z) : list Z := Z.of_nat (length l) :: l.

Definition unframe (b : list Z) : Result (list Z * list Z) :=
  match b with
  | n :: rest =>
    if (n <? 0) || (Z.of_nat (length rest) <? n)
    then Throw (EnvelopeError (js "truncated field"))
    else Ok (firstn (Z.to_nat n) rest, skipn (Z.to_nat n) rest)
  | [] => Throw (EnvelopeError (js "missing field"))
  end.

Definition PREPARE : Z := 12.
Definition FULFILL : Z := 13.

Definition prepareBytes (p : IlpPrepare) : Buffer :=
  PREPARE :: frame (amount p) ++ frame (destination p)
    ++ frame (executionCondition p) ++ expiresAt p :: data p.

Definition serializeIlpPrepare (p : IlpPrepare) : Result Buffer :=
  Ok (prepareBytes p).

Definition deserializeIlpPrepare (b : Buffer) : Result IlpPrepare :=
  match b with
  | t :: b =>
    if t =? PREPARE then
      '(amount, b) <- unframe b ;;
      '(destination, b) <- unframe b ;;
      '(executionCondition, b) <- unframe b ;;
      match b with
      | expiresAt :: data =>
        Ok {| amount := amount; destination := destination;
              executionCondition := executionCondition;
              expiresAt := expiresAt; data := data |}
      | [] => Throw (EnvelopeError (js "missing expiry"))
      end
    else Throw (EnvelopeError (js "not a prepare packet"))
  | [] => Throw (EnvelopeError (js "empty packet"))
  end.

Definition fulfillBytes (f : IlpFulfill) : Buffer :=
  FULFILL :: frame (Fulfill.fulfillment f) ++ Fulfill.data f.

Definition serializeIlpFulfill (f : IlpFulfill) : Result Buffer :=
  Ok (fulfillBytes f).

Definition deserializeIlpFulfill (b : Buffer) : Result IlpFulfill :=
  match b with
  | t :: b =>
    if t =? FULFILL then
      '(fulfillment, data) <- unframe b ;;
      Ok {| Fulfill.fulfillment := fulfillment; Fulfill.data := data |}
    else Throw (EnvelopeError (js "not a fulfill packet"))
  | [] => Throw (EnvelopeError (js "empty packet"))
  end.

End Loopback.

(* ===================================================================== *)
(** ** Statements about the envelope collaborator, and sample records *)
(* ===================================================================== *)

(** The envelope codec round-trips on the envelope [p]: serializing it
    succeeds and deserializing the bytes gives [p] back. *)
Definition envelopeRoundTripsOn
    (serializeIlpPrepare : IlpPrepare -> Result Buffer)
    (deserializeIlpPrepare : Buffer -> Result IlpPrepare)
    (p : IlpPrepare) : Prop :=
  exists request,
    serializeIlpPrepare p = Ok request /\ deserializeIlpPrepare request = Ok p.

(** The same update request with other epoch indices. *)
Definition withEpochs (u : CcpRouteUpdateRequest) (current from to : Z)
  : CcpRouteUpdateRequest :=
  {| routingTableId := routingTableId u;
     currentEpochIndex := current;
     fromEpochIndex := from;
     toEpochIndex := to;
     newRoutes := newRoutes u;
     withdrawnRoutes := withdrawnRoutes u |}.

(** The writes of an update request that come before the loop over the
    routes (lines 227-235). *)
Definition writeUpdateHeader (request : CcpRouteUpdateRequest) : Result Oer.Writer :=
  let writer := Oer.newWriter in
  writer <- Uuid.writeUuid writer (routingTableId request) ;;
  writer <- Oer.writeUInt32 writer (currentEpochIndex request) ;;
  writer <- Oer.writeUInt32 writer (fromEpochIndex request) ;;
  writer <- Oer.writeUInt32 writer (toEpochIndex request) ;;
  Oer.writeVarUInt writer (Z.of_nat (length (newRoutes request))).

(** The writes of one route that come before its auth check (lines
    237-242). *)
Definition writeRouteBeforeAuth (writer : Oer.Writer) (route : CcpRoute)
  : Result Oer.Writer :=
  writer <- Oer.writeVarOctetString writer (bufferFromAscii (prefix route)) ;;
  writer <- Oer.writeVarUInt writer (Z.of_nat (length (path route))) ;;
  writeEach (fun writer hop =>
               Oer.writeVarOctetString writer (bufferFromAscii hop))
            writer (path route).

(** An error raised inside a write: by the OER writer or by the
    identifier codec. *)
Definition isWriteFailure (e : JsError) : Prop :=
  match e with
  | OerError _ => True
  | FormatError _ => True
  | _ => False
  end.

Definition ZERO_UUID : JsString := js "00000000-0000-0000-0000-000000000000".

(** The control request of the specification's example (section 8). *)
Definition aliceControl : CcpRouteControlRequest :=
  {| speaker := js "g.alice";
     lastKnownRoutingTableId := ZERO_UUID;
     lastKnownEpoch := 0;
     features := [] |}.

(** The route of the specification's example (section 8). *)
Definition euRoute : CcpRoute :=
  {| prefix := js "g.eu";
     path := [];
     auth := bufferAlloc 32;
     props := [CcpRoutePropBuffer
                 {| isWellKnown := true; isTransitive := false; isPartial := false |}
                 0 []] |}.

(** A route with hops, a text property outside ASCII (an accented letter
    and a surrogate pair) and a partial transitive property. *)
Definition asiaRoute : CcpRoute :=
  {| prefix := js "g.asia";
     path := [js "g.hub"; js "g.asia.gw"];
     auth := Oer.uintBE 32 0x0102030405060708090A;
     props := [CcpRoutePropString
                 {| isWellKnown := false; isTransitive := true; isPartial := true |}
                 513 [0x68; 0xE9; 0xD83D; 0xDE00];
               CcpRoutePropBuffer
                 {| isWellKnown := false; isTransitive := false; isPartial := false |}
                 65535 [0; 255; 128]] |}.

Definition sampleUpdate : CcpRouteUpdateRequest :=
  {| routingTableId := js "21e55f8e-abcd-4e97-9ab9-bf0ff00a224c";
     currentEpochIndex := 52;
     fromEpochIndex := 46;
     toEpochIndex := 50;
     newRoutes := [euRoute; asiaRoute];
     withdrawnRoutes := [js "g.old"; js "g.older"] |}.

Definition sampleControl : CcpRouteControlRequest :=
  {| speaker := js "g.bob";
     lastKnownRoutingTableId := js "21e55f8e-abcd-4e97-9ab9-bf0ff00a224c";
     lastKnownEpoch := 4294967295;
     features := [js "feature-a"; [0x68; 0xE9; 0xD83D; 0xDE00]] |}.

(** A property with every flag raised, against the dependency rule. *)
Definition overFlagged : CcpRouteProp :=
  CcpRoutePropString
    {| isWellKnown := true; isTransitive := true; isPartial := true |}
    7 (js "hi").

(** Two routes, both with an auth that is not 32 bytes long. *)
Definition shortAuthA : CcpRoute :=
  {| prefix := js "g.a"; path := []; auth := []; props := [] |}.
Definition shortAuthB : CcpRoute :=
  {| prefix := js "g.b"; path := []; auth := [1; 2; 3]; props := [] |}.

Definition twoShortAuths : CcpRouteUpdateRequest :=
  {| routingTableId := ZERO_UUID;
     currentEpochIndex := 0;
     fromEpochIndex := 0;
     toEpochIndex := 0;
     newRoutes := [shortAuthA; shortAuthB];
     withdrawnRoutes := [] |}.

(** A route whose prefix and property are out of range but whose auth is
    32 bytes long: a prefix with an accented letter and a property with
    every flag raised. *)
Definition accentedRoute : CcpRoute :=
  {| prefix := [103; 46; 0xE9];
     path := [];
     auth := bufferAlloc 32;
     props := [overFlagged] |}.

(** An upper-case identifier, an out-of-range route with a good auth,
    then two routes with a wrong auth. *)
Definition laterShortAuth : CcpRouteUpdateRequest :=
  {| routingTableId := js "21E55F8E-ABCD-4E97-9AB9-BF0FF00A224C";
     currentEpochIndex := 7;
     fromEpochIndex := 9;
     toEpochIndex := 3;
     newRoutes := [accentedRoute; shortAuthB; shortAuthA];
     withdrawnRoutes := [] |}.

(** A wrong auth behind an epoch that cannot be written. *)
Definition shortAuthNegativeEpoch : CcpRouteUpdateRequest :=
  {| routingTableId := ZERO_UUID;
     currentEpochIndex := -1;
     fromEpochIndex := 0;
     toEpochIndex := 0;
     newRoutes := [shortAuthA];
     withdrawnRoutes := [] |}.


(* ===================================================================== *)
(** ** Wire forms of the OER primitives *)
(* ===================================================================== *)

(** The bytes [writeVarOctetString] puts before the content. *)
Definition lengthPrefix (len : Z) : Buffer :=
  if len <=? 127 then [len]
  else (128 + Oer.byteLength len)
         :: Oer.uintBE (Z.to_nat (Oer.byteLength len)) len.

(** The bytes of [writeVarOctetString]. *)
Definition varOctetString (b : Buffer) : Buffer :=
  lengthPrefix (Z.of_nat (length b)) ++ b.

(** The bytes of [writeVarUInt]. *)
Definition varUInt (v : Z) : Buffer :=
  Oer.byteLength v :: Oer.uintBE (Z.to_nat (Oer.byteLength v)) v.

(** *** Wire forms of the CCP payloads

    The byte layout that sections 4.2 to 4.5 describe, written as
    functions of the record; the lemmas below show that the writers
    produce these bytes and the readers parse them. *)

Definition asciiWire (s : JsString) : Buffer := varOctetString (bufferFromAscii s).
Definition utf8Wire (s : JsString) : Buffer := varOctetString (bufferFromUtf8 s).

Definition uuidWire (s : JsString) : Buffer :=
  match Uuid.parse s with
  | Some b => b
  | None => []
  end.

Definition propWire (p : CcpRouteProp) : Buffer :=
  [propMeta p] ++ Oer.uintBE 2 (propId p)
    ++ match p with
       | CcpRoutePropString _ _ value => utf8Wire value
       | CcpRoutePropBuffer _ _ value => varOctetString value
       end.

Definition routeWire (r : CcpRoute) : Buffer :=
  asciiWire (prefix r)
    ++ varUInt (Z.of_nat (length (path r))) ++ flat_map asciiWire (path r)
    ++ auth r
    ++ varUInt (Z.of_nat (length (props r))) ++ flat_map propWire (props r).

(** What follows the three epoch words of an update payload. *)
Definition updateTail (u : CcpRouteUpdateRequest) : Buffer :=
  varUInt (Z.of_nat (length (newRoutes u))) ++ flat_map routeWire (newRoutes u)
    ++ varUInt (Z.of_nat (length (withdrawnRoutes u)))
    ++ flat_map asciiWire (withdrawnRoutes u).

Definition updateWire (u : CcpRouteUpdateRequest) : Buffer :=
  uuidWire (routingTableId u)
    ++ Oer.uintBE 4 (currentEpochIndex u)
    ++ Oer.uintBE 4 (fromEpochIndex u)
    ++ Oer.uintBE 4 (toEpochIndex u)
    ++ updateTail u.

Definition controlWire (r : CcpRouteControlRequest) : Buffer :=
  asciiWire (speaker r)
    ++ uuidWire (lastKnownRoutingTableId r)
    ++ Oer.uintBE 4 (lastKnownEpoch r)
    ++ varUInt (Z.of_nat (length (features r)))
    ++ flat_map utf8Wire (features r).

(** *** Sample packets, in the reference envelope encoding *)

Definition alicePrepare : IlpPrepare :=
  peerPrepare CCP_CONTROL_DESTINATION 60000 (controlWire aliceControl).

(** The control request of the example, encoded at time 0. *)
Definition aliceRequest : Buffer := Loopback.prepareBytes alicePrepare.

(** The same request carrying a non-zero amount. *)
Definition alicePaid : IlpPrepare :=
  {| amount := js "1000";
     destination := CCP_CONTROL_DESTINATION;
     executionCondition := PEER_PROTOCOL_CONDITION;
     expiresAt := 60000;
     data := controlWire aliceControl |}.

(** The same payload addressed to the update decoder's destination. *)
Definition aliceMisaddressed : IlpPrepare :=
  peerPrepare CCP_UPDATE_DESTINATION 60000 (controlWire aliceControl).

(** The same request under a condition whose last bit is flipped. *)
Definition aliceForged : IlpPrepare :=
  {| amount := js "0";
     destination := CCP_CONTROL_DESTINATION;
     executionCondition := firstn 31 PEER_PROTOCOL_CONDITION ++ [36];
     expiresAt := 60000;
     data := controlWire aliceControl |}.

Definition zeroFulfill : IlpFulfill :=
  {| Fulfill.fulfillment := repeat 0 32; Fulfill.data := [] |}.

Definition otherFulfill : IlpFulfill :=
  {| Fulfill.fulfillment := repeat 0 31 ++ [1]; Fulfill.data := [] |}.

(* ===================================================================== *)
(** ** Readers as functions of the bytes they consume *)
(* ===================================================================== *)

(** A reader is framed when a successful read consumed a definite prefix
    [c] of its input: the same prefix followed by any other bytes reads
    the same value, and no proper prefix of [c] reads at all. *)
Definition Framed {A} (rd : Oer.Reader -> Result (A * Oer.Reader)) : Prop :=
  forall full x rest,
    rd full = Ok (x, rest) ->
    exists c,
      full = c ++ rest
      /\ (forall rest', rd (c ++ rest') = Ok (x, rest'))
      /\ (forall pre suffix,
            c = pre ++ suffix -> suffix <> [] -> exists e, rd pre = Throw e).

(** The fields of a control payload together with the reader state left
    after them: the body of lines 84-103 before the record is returned. *)
Definition readControlFields (reader : Oer.Reader)
  : Result (CcpRouteControlRequest * Oer.Reader) :=
  '(speaker, reader) <- mapFst toStringAscii (Oer.readVarOctetString reader) ;;
  '(lastKnownRoutingTableId, reader) <- Uuid.readUuid reader ;;
  '(lastKnownEpoch, reader) <- Oer.readUInt32 reader ;;
  '(featureCount, reader) <- Oer.readVarUInt reader ;;
  '(features, reader) <-
    readEach (fun reader => mapFst toStringUtf8 (Oer.readVarOctetString reader))
             (Z.to_nat featureCount) reader ;;
  Ok ({| speaker := speaker;
         lastKnownRoutingTableId := lastKnownRoutingTableId;
         lastKnownEpoch := lastKnownEpoch;
         features := features |}, reader).

(** The fields of an update payload together with the reader state left
    after them: the body of lines 145-223 before the record is returned. *)
Definition readUpdateFields (reader : Oer.Reader)
  : Result (CcpRouteUpdateRequest * Oer.Reader) :=
  '(routingTableId, reader) <- Uuid.readUuid reader ;;
  '(currentEpochIndex, reader) <- Oer.readUInt32 reader ;;
  '(fromEpochIndex, reader) <- Oer.readUInt32 reader ;;
  '(toEpochIndex, reader) <- Oer.readUInt32 reader ;;
  '(newRoutesCount, reader) <- Oer.readVarUInt reader ;;
  '(newRoutes, reader) <- readEach readRoute (Z.to_nat newRoutesCount) reader ;;
  '(withdrawnRoutesCount, reader) <- Oer.readVarUInt reader ;;
  '(withdrawnRoutes, reader) <-
    readEach (fun reader => mapFst toStringUtf8 (Oer.readVarOctetString reader))
             (Z.to_nat withdrawnRoutesCount) reader ;;
  Ok ({| routingTableId := routingTableId;
         currentEpochIndex := currentEpochIndex;
         fromEpochIndex := fromEpochIndex;
         toEpochIndex := toEpochIndex;
         newRoutes := newRoutes;
         withdrawnRoutes := withdrawnRoutes |}, reader).

(* ===================================================================== *)
(** ** Records outside the valid ranges *)
(* ===================================================================== *)

(** The flags as the encoder keeps them: a transitive flag survives only
    without the well-known flag, a partial flag only with a surviving
    transitive flag. *)
Definition keptFlags (c : CcpRoutePropCommon) : CcpRoutePropCommon :=
  {| isWellKnown := isWellKnown c;
     isTransitive := isTransitive c && negb (isWellKnown c);
     isPartial := isPartial c && isTransitive c && negb (isWellKnown c) |}.

Definition withFlags (p : CcpRouteProp) (c : CcpRoutePropCommon) : CcpRouteProp :=
  match p with
  | CcpRoutePropBuffer _ i v => CcpRoutePropBuffer c i v
  | CcpRoutePropString _ i v => CcpRoutePropString c i v
  end.

(** A property that is valid but for its flags, which are arbitrary. *)
Definition validPropValue (p : CcpRouteProp) : bool :=
  isUInt16 (propId p)
  && match p with
     | CcpRoutePropBuffer _ _ value => fitsOer (length value)
     | CcpRoutePropString _ _ value => isUnicodeText value
     end.

(** A control request that is valid but for its speaker, which is any
    string within the length limit. *)
Definition validControlAnySpeaker (r : CcpRouteControlRequest) : bool :=
  fitsOer (length (speaker r))
  && UuidText.isCanonical (lastKnownRoutingTableId r)
  && isUInt32 (lastKnownEpoch r)
  && fitsOer (length (features r)) && forallb isUnicodeText (features r).

Definition withSpeaker (r : CcpRouteControlRequest) (s : JsString)
  : CcpRouteControlRequest :=
  {| speaker := s;
     lastKnownRoutingTableId := lastKnownRoutingTableId r;
     lastKnownEpoch := lastKnownEpoch r;
     features := features r |}.

(** An update request that is valid but for its withdrawn routes, which
    are any strings within the length limit. *)
Definition validUpdateAnyWithdrawn (u : CcpRouteUpdateRequest) : bool :=
  UuidText.isCanonical (routingTableId u)
  && isUInt32 (currentEpochIndex u)
  && isUInt32 (fromEpochIndex u)
  && isUInt32 (toEpochIndex u)
  && fitsOer (length (newRoutes u)) && forallb validRoute (newRoutes u)
  && fitsOer (length (withdrawnRoutes u))
  && forallb (fun s => fitsOer (length s)) (withdrawnRoutes u).

Definition withWithdrawn (u : CcpRouteUpdateRequest) (ws : list JsString)
  : CcpRouteUpdateRequest :=
  {| routingTableId := routingTableId u;
     currentEpochIndex := currentEpochIndex u;
     fromEpochIndex := fromEpochIndex u;
     toEpochIndex := toEpochIndex u;
     newRoutes := newRoutes u;
     withdrawnRoutes := ws |}.

(** What a decoded route always satisfies. *)
Definition decodedRouteShape (r : CcpRoute) : Prop :=
  length (auth r) = 32%nat
  /\ Forall (fun c => 0 <= c <= 127) (prefix r)
  /\ Forall (Forall (fun c => 0 <= c <= 127)) (path r).

(** *** More sample records *)

(** A speaker outside ASCII: "g.", e-acute, the euro sign. *)
Definition accentedControl : CcpRouteControlRequest :=
  withSpeaker aliceControl [103; 46; 0xE9; 0x20AC].

(** Withdrawn routes outside ASCII: "g.", e-acute; and the two Latin-1
    characters whose bytes are the UTF-8 form of e-acute. *)
Definition accentedWithdrawn : CcpRouteUpdateRequest :=
  withWithdrawn sampleUpdate [[103; 46; 0xE9]; [0xC3; 0xA9]].

(** An update request whose from-epoch is negative. *)
Definition negativeEpoch : CcpRouteUpdateRequest :=
  withEpochs sampleUpdate 1 (-1) 2.

(** The example request as a control packet and as an update packet. *)
Definition alicePrepareLater : IlpPrepare :=
  {| amount := js "0";
     destination := CCP_CONTROL_DESTINATION;
     executionCondition := PEER_PROTOCOL_CONDITION;
     expiresAt := 60000;
     data := controlWire aliceControl ++ [1; 2; 3] |}.

Definition aliceTruncated : IlpPrepare :=
  {| amount := js "0";
     destination := CCP_CONTROL_DESTINATION;
     executionCondition := PEER_PROTOCOL_CONDITION;
     expiresAt := 60000;
     data := firstn 20 (controlWire aliceControl) |}.

(* ===================================================================== *)
(** ** Facts about the platform primitives *)
(* ===================================================================== *)

Lemma bind_ok {A B} (m : Result A) (k : A -> Result B) (a : A) :
  m = Ok a -> bind m k = k a.
Proof. intros ->. reflexivity. Qed.

Lemma buffer_equals_refl (a : Buffer) : buffer_equals a a = true.
Proof.
  induction a as [|x a IH]; simpl; [reflexivity|].
  now rewrite Z.eqb_refl, IH.
Qed.

Lemma buffer_equals_eq (a b : Buffer) : buffer_equals a b = true <-> a = b.
Proof.
  split.
  - revert b. induction a as [|x a IH]; intros [|y b]; simpl; try discriminate; auto.
    intros H. apply andb_prop in H as [Hx Hab].
    apply Z.eqb_eq in Hx. subst y. f_equal. now apply IH.
  - intros ->. apply buffer_equals_refl.
Qed.

Lemma buffer_equals_neq (a b : Buffer) : a <> b -> buffer_equals a b = false.
Proof.
  intros H. destruct (buffer_equals a b) eqn:E; [|reflexivity].
  apply buffer_equals_eq in E. contradiction.
Qed.

Lemma startsWith_app (p post : JsString) : startsWith (p ++ post) p = true.
Proof.
  induction p as [|x p IH]; simpl; [reflexivity|].
  now rewrite Z.eqb_refl, IH.
Qed.

Lemma Includes_includes (hay needle : JsString) :
  Includes hay needle -> includes hay needle = true.
Proof.
  intros (pre & post & ->).
  induction pre as [|x pre IH].
  - pose proof (startsWith_app needle post) as H. simpl.
    destruct (needle ++ post); simpl; now rewrite H.
  - simpl. simpl in IH. rewrite IH. apply orb_true_r.
Qed.

Lemma land_255_small (c : Z) : 0 <= c <= 127 -> Z.land c 255 = c.
Proof.
  intros H. change 255 with (Z.ones 8). rewrite Z.land_ones by lia.
  apply Z.mod_small. lia.
Qed.

Lemma land_127_small (c : Z) : 0 <= c <= 127 -> Z.land c 127 = c.
Proof.
  intros H. change 127 with (Z.ones 7). rewrite Z.land_ones by lia.
  apply Z.mod_small. lia.
Qed.

Lemma inRange_spec (lo hi x : Z) : inRange lo hi x = true <-> lo <= x <= hi.
Proof. unfold inRange. rewrite andb_true_iff, !Z.leb_le. tauto. Qed.

Lemma inRange_false (lo hi x : Z) : inRange lo hi x = false <-> x < lo \/ hi < x.
Proof.
  unfold inRange. rewrite andb_false_iff, !Z.leb_gt. tauto.
Qed.

Lemma ascii_roundtrip (s : JsString) :
  forallb (inRange 0 127) s = true -> toStringAscii (bufferFromAscii s) = s.
Proof.
  induction s as [|c s IH]; simpl; [reflexivity|].
  intros H. apply andb_prop in H as [Hc Hs]. apply inRange_spec in Hc.
  rewrite land_255_small, land_127_small by assumption.
  f_equal. now apply IH.
Qed.

Lemma ascii_utf8_roundtrip (s : JsString) :
  forallb (inRange 0 127) s = true -> toStringUtf8 (bufferFromAscii s) = s.
Proof.
  induction s as [|c s IH]; simpl; [reflexivity|].
  intros H. apply andb_prop in H as [Hc Hs].
  pose proof Hc as Hc'. apply inRange_spec in Hc'.
  rewrite land_255_small by assumption.
  change (inRange 0 127 c) with (inRange 0 0x7F c). rewrite Hc.
  f_equal. now apply IH.
Qed.

Lemma bufferFromAscii_length (s : JsString) :
  length (bufferFromAscii s) = length s.
Proof. apply length_map. Qed.

(** *** UTF-8: decoding inverts encoding on paired strings *)

Ltac decide_range :=
  repeat match goal with
  | |- context [inRange ?lo ?hi ?x] =>
    first [ rewrite (proj2 (inRange_spec lo hi x)) by lia
          | rewrite (proj2 (inRange_false lo hi x)) by lia ]
  end.

Lemma decode_one (b1 : Z) (r : Buffer) :
  0 <= b1 <= 0x7F -> toStringUtf8 (b1 :: r) = b1 :: toStringUtf8 r.
Proof. intros H. cbn [toStringUtf8]. now decide_range. Qed.

Lemma decode_two (b1 b2 : Z) (r : Buffer) :
  0xC2 <= b1 <= 0xDF -> 0x80 <= b2 <= 0xBF ->
  toStringUtf8 (b1 :: b2 :: r)
  = ((b1 - 0xC0) * 64 + (b2 - 0x80)) :: toStringUtf8 r.
Proof.
  intros H1 H2. cbn [toStringUtf8]. unfold isContinuation. now decide_range.
Qed.

Lemma decode_three (b1 b2 b3 : Z) (r : Buffer) :
  0xE0 <= b1 <= 0xEF -> inRange (secondLo b1) (secondHi b1) b2 = true ->
  0x80 <= b3 <= 0xBF ->
  toStringUtf8 (b1 :: b2 :: b3 :: r)
  = ((b1 - 0xE0) * 4096 + (b2 - 0x80) * 64 + (b3 - 0x80)) :: toStringUtf8 r.
Proof.
  intros H1 H2 H3. cbn [toStringUtf8]. rewrite H2. unfold isContinuation.
  now decide_range.
Qed.

Lemma decode_four (b1 b2 b3 b4 : Z) (r : Buffer) :
  0xF0 <= b1 <= 0xF4 -> inRange (secondLo b1) (secondHi b1) b2 = true ->
  0x80 <= b3 <= 0xBF -> 0x80 <= b4 <= 0xBF ->
  toStringUtf8 (b1 :: b2 :: b3 :: b4 :: r)
  = codeUnits ((b1 - 0xF0) * 262144 + (b2 - 0x80) * 4096
               + (b3 - 0x80) * 64 + (b4 - 0x80)) ++ toStringUtf8 r.
Proof.
  intros H1 H2 H3 H4. cbn [toStringUtf8]. rewrite H2. unfold isContinuation.
  now decide_range.
Qed.

Lemma surrogate_bounds (c : Z) :
  isHighSurrogate c = false -> isLowSurrogate c = false ->
  c < 0xD800 \/ 0xDFFF < c.
Proof.
  unfold isHighSurrogate, isLowSurrogate.
  rewrite !andb_false_iff, !Z.leb_gt. lia.
Qed.

Lemma decode_unit (c : Z) (rest : Buffer) :
  0 <= c <= 0xFFFF -> isHighSurrogate c = false -> isLowSurrogate c = false ->
  toStringUtf8 (utf8Bytes c ++ rest) = c :: toStringUtf8 rest.
Proof.
  intros Hc Hh Hl. pose proof (surrogate_bounds c Hh Hl) as Hs.
  unfold utf8Bytes.
  destruct (Z.ltb_spec c 0x80).
  { cbn [app]. apply decode_one. lia. }
  destruct (Z.ltb_spec c 0x800).
  { cbn [app]. rewrite decode_two.
    - f_equal. pose proof (Z.div_mod c 64). lia.
    - pose proof (Z.div_mod c 64). pose proof (Z.mod_pos_bound c 64). lia.
    - pose proof (Z.mod_pos_bound c 64). lia. }
  destruct (Z.ltb_spec c 0x10000); [|lia].
  cbn [app].
  assert (Hq : 0 <= c / 4096 <= 15).
  { split; [apply Z.div_pos; lia|]. apply Z.lt_succ_r.
    apply Z.div_lt_upper_bound; lia. }
  assert (Hq2 : c / 64 / 64 = c / 4096) by (rewrite Z.div_div by lia; reflexivity).
  pose proof (Z.div_mod c 64 ltac:(lia)) as E1.
  pose proof (Z.mod_pos_bound c 64 ltac:(lia)) as B1.
  pose proof (Z.div_mod (c / 64) 64 ltac:(lia)) as E2.
  pose proof (Z.mod_pos_bound (c / 64) 64 ltac:(lia)) as B2.
  rewrite Hq2 in E2.
  rewrite decode_three.
  - f_equal. lia.
  - lia.
  - apply inRange_spec. unfold secondLo, secondHi.
    destruct (Z.eqb_spec (0xE0 + c / 4096) 0xE0);
      destruct (Z.eqb_spec (0xE0 + c / 4096) 0xED);
      destruct (Z.eqb_spec (0xE0 + c / 4096) 0xF0);
      destruct (Z.eqb_spec (0xE0 + c / 4096) 0xF4); lia.
  - lia.
Qed.

Lemma decode_pair (h l : Z) (rest : Buffer) :
  isHighSurrogate h = true -> isLowSurrogate l = true ->
  toStringUtf8
    (utf8Bytes (0x10000 + (h - 0xD800) * 0x400 + (l - 0xDC00)) ++ rest)
  = h :: l :: toStringUtf8 rest.
Proof.
  unfold isHighSurrogate, isLowSurrogate.
  rewrite !andb_true_iff, !Z.leb_le. intros Hh Hl.
  set (cp := 0x10000 + (h - 0xD800) * 0x400 + (l - 0xDC00)).
  assert (Hcp : 0x10000 <= cp <= 0x10FFFF) by (unfold cp; lia).
  unfold utf8Bytes.
  destruct (Z.ltb_spec cp 0x80); [lia|].
  destruct (Z.ltb_spec cp 0x800); [lia|].
  destruct (Z.ltb_spec cp 0x10000); [lia|].
  cbn [app].
  pose proof (Z.div_mod cp 64 ltac:(lia)) as E1.
  pose proof (Z.mod_pos_bound cp 64 ltac:(lia)) as B1.
  pose proof (Z.div_mod (cp / 64) 64 ltac:(lia)) as E2.
  pose proof (Z.mod_pos_bound (cp / 64) 64 ltac:(lia)) as B2.
  pose proof (Z.div_mod (cp / 4096) 64 ltac:(lia)) as E3.
  pose proof (Z.mod_pos_bound (cp / 4096) 64 ltac:(lia)) as B3.
  assert (Hq2 : cp / 64 / 64 = cp / 4096) by (rewrite Z.div_div by lia; reflexivity).
  assert (Hq3 : cp / 4096 / 64 = cp / 262144) by (rewrite Z.div_div by lia; reflexivity).
  rewrite Hq2 in E2. rewrite Hq3 in E3.
  assert (Hq : 1 <= cp / 4096 / 1 /\ 0 <= cp / 262144 <= 4).
  { rewrite Z.div_1_r. lia. }
  rewrite decode_four.
  - replace ((0xF0 + cp / 262144 - 0xF0) * 262144
             + (0x80 + (cp / 4096) mod 64 - 0x80) * 4096
             + (0x80 + (cp / 64) mod 64 - 0x80) * 64
             + (0x80 + cp mod 64 - 0x80)) with cp by lia.
    unfold codeUnits. destruct (Z.ltb_spec cp 0x10000); [lia|].
    cbn [app]. f_equal; [|f_equal].
    + unfold cp. replace (65536 + (h - 55296) * 1024 + (l - 56320) - 65536)
        with ((l - 56320) + (h - 55296) * 1024) by lia.
      rewrite Z.div_add by lia. rewrite Z.div_small by lia. lia.
    + unfold cp. replace (65536 + (h - 55296) * 1024 + (l - 56320) - 65536)
        with ((l - 56320) + (h - 55296) * 1024) by lia.
      rewrite Z.mod_add by lia. rewrite Z.mod_small by lia. lia.
  - lia.
  - apply inRange_spec. unfold secondLo, secondHi.
    destruct (Z.eqb_spec (0xF0 + cp / 262144) 0xE0);
      destruct (Z.eqb_spec (0xF0 + cp / 262144) 0xED);
      destruct (Z.eqb_spec (0xF0 + cp / 262144) 0xF0);
      destruct (Z.eqb_spec (0xF0 + cp / 262144) 0xF4); lia.
  - lia.
  - lia.
Qed.

Lemma utf8_roundtrip_bounded (n : nat) (s : JsString) :
  (length s <= n)%nat -> isPaired s = true ->
  toStringUtf8 (bufferFromUtf8 s) = s.
Proof.
  revert s. induction n as [|n IH]; intros [|c rest] Hlen Hp;
    try reflexivity; simpl in Hlen; [lia|].
  cbn [bufferFromUtf8 isPaired] in *.
  destruct (isHighSurrogate c) eqn:Hh.
  - destruct rest as [|d rest']; [discriminate|].
    apply andb_prop in Hp as [Hd Hr]. rewrite Hd.
    rewrite decode_pair by assumption.
    do 2 f_equal. apply IH; [simpl in Hlen; lia | assumption].
  - apply andb_prop in Hp as [Hp Hr]. apply andb_prop in Hp as [Hc Hl].
    apply negb_true_iff in Hl. rewrite Hl.
    apply inRange_spec in Hc.
    rewrite decode_unit by assumption.
    f_equal. apply IH; [lia | assumption].
Qed.

Lemma utf8_roundtrip (s : JsString) :
  isPaired s = true -> toStringUtf8 (bufferFromUtf8 s) = s.
Proof. apply (utf8_roundtrip_bounded (length s)). lia. Qed.

(* ===================================================================== *)
(** ** Facts about the OER primitives *)
(* ===================================================================== *)

Lemma uintBE_length (n : nat) (v : Z) : length (Oer.uintBE n v) = n.
Proof.
  revert v. induction n as [|n IH]; intros v; simpl; [reflexivity|].
  rewrite length_app, IH. simpl. lia.
Qed.

Lemma readUIntBE_snoc (b : Buffer) (x : Z) :
  Oer.readUIntBE (b ++ [x]) = Oer.readUIntBE b * 256 + x.
Proof. unfold Oer.readUIntBE. now rewrite fold_left_app. Qed.

Lemma readUIntBE_uintBE (n : nat) (v : Z) :
  0 <= v < 256 ^ Z.of_nat n -> Oer.readUIntBE (Oer.uintBE n v) = v.
Proof.
  revert v. induction n as [|n IH]; intros v Hv.
  - simpl in *. unfold Oer.readUIntBE. simpl. lia.
  - cbn [Oer.uintBE]. rewrite readUIntBE_snoc, IH.
    + pose proof (Z.div_mod v 256). lia.
    + rewrite Nat2Z.inj_succ, Z.pow_succ_r in Hv by lia.
      split; [apply Z.div_pos; lia|].
      apply Z.div_lt_upper_bound; lia.
Qed.

Lemma read_app (b rest : Buffer) (n : Z) :
  n = Z.of_nat (length b) -> Oer.read (b ++ rest) n = Ok (b, rest).
Proof.
  intros ->. unfold Oer.read. rewrite length_app.
  destruct (Z.ltb_spec (Z.of_nat (length b + length rest)) (Z.of_nat (length b)));
    [lia|].
  rewrite Nat2Z.id.
  rewrite firstn_app, Nat.sub_diag, firstn_all, firstn_O, app_nil_r.
  rewrite skipn_app, Nat.sub_diag, skipn_all. reflexivity.
Qed.

Lemma read_short (r : Buffer) (n : Z) :
  Z.of_nat (length r) < n -> Oer.read r n = Throw (OerError ReadOutOfBounds).
Proof.
  intros H. unfold Oer.read. destruct (Z.ltb_spec (Z.of_nat (length r)) n); [reflexivity|lia].
Qed.

Lemma writeUInt_ok (w : Oer.Writer) (v len : Z) :
  1 <= len <= 6 -> 0 <= v < 256 ^ len ->
  Oer.writeUInt w v len = Ok (w ++ Oer.uintBE (Z.to_nat len) v).
Proof.
  intros Hl Hv. unfold Oer.writeUInt, Oer.MAX_INT_BYTES, Oer.write.
  destruct (Z.ltb_spec v 0); [lia|].
  destruct (Z.leb_spec len 0); [lia|].
  destruct (Z.ltb_spec 6 len); [lia|].
  destruct (Z.ltb_spec (256 ^ len - 1) v); [lia|].
  reflexivity.
Qed.

Lemma readUInt_ok (v len : Z) (rest : Buffer) :
  1 <= len <= 6 -> 0 <= v < 256 ^ len ->
  Oer.readUInt (Oer.uintBE (Z.to_nat len) v ++ rest) len = Ok (v, rest).
Proof.
  intros Hl Hv. unfold Oer.readUInt, Oer.MAX_INT_BYTES.
  destruct (Z.leb_spec len 0); [lia|].
  destruct (Z.ltb_spec 6 len); [lia|].
  rewrite read_app by (rewrite uintBE_length; lia).
  cbn [bind]. rewrite readUIntBE_uintBE by (rewrite Z2Nat.id; lia).
  reflexivity.
Qed.

Lemma writeUInt_out_of_range (w : Oer.Writer) (v len : Z) :
  1 <= len <= 6 -> v < 0 \/ 256 ^ len <= v ->
  exists f, Oer.writeUInt w v len = Throw (OerError f).
Proof.
  intros Hl Hv. unfold Oer.writeUInt, Oer.MAX_INT_BYTES.
  destruct (Z.ltb_spec v 0); [eauto|].
  destruct (Z.leb_spec len 0); [lia|].
  destruct (Z.ltb_spec 6 len); [lia|].
  destruct (Z.ltb_spec (256 ^ len - 1) v); [eauto|lia].
Qed.

(** The byte length of a value: at most six bytes below [2^48], and the
    value lies between the powers of 256 on either side. *)
Lemma byteLength_bounds (n : Z) :
  0 <= n < 2 ^ 48 ->
  1 <= Oer.byteLength n <= 6
  /\ n < 256 ^ Oer.byteLength n
  /\ (0 < n -> 256 ^ (Oer.byteLength n - 1) <= n).
Proof.
  intros Hn. unfold Oer.byteLength.
  assert (Hlog : 0 <= Z.log2 n < 48).
  { split; [apply Z.log2_nonneg|].
    destruct (Z.eq_dec n 0) as [->|Hnz]; [simpl; lia|].
    apply Z.log2_lt_pow2; lia. }
  set (q := Z.log2 n / 8).
  assert (Hq : 0 <= q <= 5).
  { unfold q. split; [apply Z.div_pos; lia|].
    apply Z.lt_succ_r. apply Z.div_lt_upper_bound; lia. }
  pose proof (Z.div_mod (Z.log2 n) 8 ltac:(lia)) as E.
  pose proof (Z.mod_pos_bound (Z.log2 n) 8 ltac:(lia)) as B.
  fold q in E.
  assert (Hpow : forall k, 0 <= k -> 256 ^ k = 2 ^ (8 * k)).
  { intros k Hk. change 256 with (2 ^ 8). rewrite <- Z.pow_mul_r by lia. reflexivity. }
  split; [lia|]. split.
  - rewrite Hpow by lia.
    destruct (Z.eq_dec n 0) as [->|Hnz].
    + apply Z.pow_pos_nonneg; lia.
    + pose proof (Z.log2_spec n ltac:(lia)) as [_ Hu].
      eapply Z.lt_le_trans; [exact Hu|].
      apply Z.pow_le_mono_r; lia.
  - intros Hpos. replace (q + 1 - 1) with q by lia. rewrite Hpow by lia.
    pose proof (Z.log2_spec n Hpos) as [Hl _].
    eapply Z.le_trans; [|exact Hl].
    apply Z.pow_le_mono_r; lia.
Qed.

Lemma lor_128_small (k : Z) : 1 <= k <= 6 -> Z.lor 128 k = 128 + k.
Proof.
  intros H.
  assert (E : k = 1 \/ k = 2 \/ k = 3 \/ k = 4 \/ k = 5 \/ k = 6) by lia.
  destruct E as [->|[->|[->|[->|[->| ->]]]]]; reflexivity.
Qed.

Lemma testbit7_small (k : Z) : 0 <= k <= 127 -> Z.testbit k 7 = false.
Proof.
  intros H. destruct (Z.eq_dec k 0) as [->|Hk]; [reflexivity|].
  apply Z.bits_above_log2; [lia|]. apply Z.log2_lt_pow2; lia.
Qed.

Lemma land_128_small (k : Z) : 0 <= k <= 127 -> Z.land k 128 = 0.
Proof.
  intros H. apply Z.bits_inj'. intros i Hi.
  rewrite Z.land_spec, Z.bits_0. change 128 with (2 ^ 7).
  rewrite Z.pow2_bits_eqb by lia.
  destruct (Z.eqb_spec 7 i) as [<-|]; [|apply andb_false_r].
  now rewrite testbit7_small.
Qed.

Lemma long_prefix_bits (L : Z) :
  1 <= L <= 6 -> Z.land (128 + L) 128 = 128 /\ Z.land (128 + L) 127 = L.
Proof.
  intros H.
  assert (E : L = 1 \/ L = 2 \/ L = 3 \/ L = 4 \/ L = 5 \/ L = 6) by lia.
  destruct E as [->|[->|[->|[->|[->| ->]]]]]; split; reflexivity.
Qed.

Lemma uintBE_1 (v : Z) : 0 <= v < 256 -> Oer.uintBE 1 v = [v].
Proof. intros H. simpl. now rewrite Z.mod_small. Qed.

Lemma readUInt8_cons (x : Z) (rest : Buffer) :
  Oer.readUInt8 (x :: rest) = Ok (x, rest).
Proof.
  unfold Oer.readUInt8, Oer.readUInt, Oer.read. simpl.
  destruct (Z.ltb_spec (Z.pos (Pos.of_succ_nat (length rest))) 1); [lia|].
  reflexivity.
Qed.

Lemma writeUInt8_ok (w : Oer.Writer) (v : Z) :
  0 <= v <= 255 -> Oer.writeUInt8 w v = Ok (w ++ [v]).
Proof.
  intros H. unfold Oer.writeUInt8.
  rewrite writeUInt_ok by (try change (256 ^ 1) with 256; lia).
  change (Z.to_nat 1) with 1%nat. rewrite uintBE_1 by lia. reflexivity.
Qed.

Lemma writeVarOctetString_ok (w : Oer.Writer) (b : Buffer) :
  fitsOer (length b) = true ->
  Oer.writeVarOctetString w b = Ok (w ++ varOctetString b).
Proof.
  unfold fitsOer. intros Hfit. apply Z.ltb_lt in Hfit.
  unfold Oer.writeVarOctetString, varOctetString, lengthPrefix, Oer.write.
  set (len := Z.of_nat (length b)) in *.
  assert (Hlen : 0 <= len) by (unfold len; lia).
  destruct (Z.leb_spec len 127).
  - rewrite writeUInt8_ok by lia. cbn [bind]. now rewrite <- app_assoc.
  - destruct (byteLength_bounds len ltac:(lia)) as (HL & Hup & _).
    rewrite lor_128_small by lia.
    rewrite writeUInt8_ok by lia. cbn [bind].
    rewrite writeUInt_ok by lia. cbn [bind].
    rewrite <- ?app_assoc. reflexivity.
Qed.

Lemma min_length_ok (L len : Z) :
  1 <= L <= 6 -> 127 < len -> 256 ^ (L - 1) <= len ->
  Z.max 128 (jsShiftLeft 1 ((L - 1) * 8)) <= len.
Proof.
  intros HL Hlen Hlow.
  assert (E : L = 1 \/ L = 2 \/ L = 3 \/ L = 4 \/ L = 5 \/ L = 6) by lia.
  destruct E as [->|[->|[->|[->|[->| ->]]]]];
    vm_compute (jsShiftLeft _ _); simpl in Hlow; lia.
Qed.

Lemma readVarOctetString_ok (b rest : Buffer) :
  fitsOer (length b) = true ->
  Oer.readVarOctetString (varOctetString b ++ rest) = Ok (b, rest).
Proof.
  unfold fitsOer. intros Hfit. apply Z.ltb_lt in Hfit.
  unfold Oer.readVarOctetString, Oer.readLengthPrefix, varOctetString, lengthPrefix.
  set (len := Z.of_nat (length b)) in *.
  assert (Hlen : 0 <= len) by (unfold len; lia).
  destruct (Z.leb_spec len 127).
  - cbn [app]. rewrite readUInt8_cons. cbn [bind].
    rewrite land_128_small by lia. cbn [Z.eqb].
    apply read_app. reflexivity.
  - destruct (byteLength_bounds len ltac:(lia)) as (HL & Hup & Hlow).
    destruct (long_prefix_bits _ HL) as [Hhi Hlo].
    cbn [app]. rewrite readUInt8_cons. cbn [bind].
    rewrite Hhi, Hlo. cbn [Z.eqb].
    rewrite <- app_assoc, readUInt_ok by lia. cbn [bind].
    pose proof (min_length_ok _ len HL ltac:(lia) (Hlow ltac:(lia))) as Hmin.
    destruct (Z.ltb_spec len
                (Z.max 128 (jsShiftLeft 1 ((Oer.byteLength len - 1) * 8)))); [lia|].
    apply read_app. reflexivity.
Qed.

Lemma writeVarUInt_ok (w : Oer.Writer) (v : Z) :
  0 <= v < 2 ^ 48 -> Oer.writeVarUInt w v = Ok (w ++ varUInt v).
Proof.
  intros Hv. destruct (byteLength_bounds v Hv) as (HL & Hup & _).
  unfold Oer.writeVarUInt, Oer.MAX_INT_BYTES, varUInt.
  destruct (Z.ltb_spec v 0); [lia|].
  destruct (Z.ltb_spec 6 (Oer.byteLength v)); [lia|].
  rewrite writeVarOctetString_ok.
  - unfold varOctetString, lengthPrefix. rewrite uintBE_length, Z2Nat.id by lia.
    destruct (Z.leb_spec (Oer.byteLength v) 127); [reflexivity|lia].
  - unfold fitsOer. rewrite uintBE_length, Z2Nat.id by lia. apply Z.ltb_lt. lia.
Qed.

Lemma readVarUInt_ok (v : Z) (rest : Buffer) :
  0 <= v < 2 ^ 48 -> Oer.readVarUInt (varUInt v ++ rest) = Ok (v, rest).
Proof.
  intros Hv. destruct (byteLength_bounds v Hv) as (HL & Hup & _).
  unfold Oer.readVarUInt, Oer.MAX_INT_BYTES.
  replace (varUInt v)
    with (varOctetString (Oer.uintBE (Z.to_nat (Oer.byteLength v)) v)).
  - rewrite readVarOctetString_ok.
    + cbn [bind]. rewrite uintBE_length, Z2Nat.id by lia.
      destruct (Z.eqb_spec (Oer.byteLength v) 0); [lia|].
      destruct (Z.ltb_spec 6 (Oer.byteLength v)); [lia|].
      rewrite readUIntBE_uintBE by (rewrite Z2Nat.id; lia). reflexivity.
    + unfold fitsOer. rewrite uintBE_length, Z2Nat.id by lia. apply Z.ltb_lt. lia.
  - unfold varOctetString, lengthPrefix, varUInt.
    rewrite uintBE_length, Z2Nat.id by lia.
    destruct (Z.leb_spec (Oer.byteLength v) 127); [reflexivity|lia].
Qed.

(* ===================================================================== *)
(** ** Facts about the identifier codec *)
(* ===================================================================== *)

Lemma lowerHex_digit (c : Z) :
  UuidText.isLowerHex c = true ->
  exists a, Uuid.hexValue c = Some a /\ 0 <= a < 16 /\ Uuid.hexDigit a = c.
Proof.
  unfold UuidText.isLowerHex, Uuid.hexValue, Uuid.hexDigit.
  intros H. apply orb_prop in H as [H|H]; pose proof H as H'; apply inRange_spec in H'.
  - rewrite H. exists (c - 48). split; [reflexivity|]. split; [lia|].
    destruct (Z.ltb_spec (c - 48) 10); lia.
  - rewrite (proj2 (inRange_false 48 57 c)) by lia. rewrite H.
    exists (c - 87). split; [reflexivity|]. split; [lia|].
    destruct (Z.ltb_spec (c - 87) 10); lia.
Qed.

Lemma hex_roundtrip_bounded (n : nat) (h : JsString) :
  (length h <= 2 * n)%nat -> Nat.even (length h) = true ->
  forallb UuidText.isLowerHex h = true ->
  exists b, Uuid.fromHex h = Some b /\ Uuid.toHex b = h.
Proof.
  revert h. induction n as [|n IH]; intros h Hlen Heven Hhex.
  - destruct h; [|simpl in Hlen; lia]. exists []. split; reflexivity.
  - destruct h as [|x [|y rest]].
    + exists []. split; reflexivity.
    + discriminate.
    + cbn [forallb] in Hhex.
      apply andb_prop in Hhex as [Hx Hhex]. apply andb_prop in Hhex as [Hy Hrest].
      destruct (lowerHex_digit x Hx) as (a & Ea & Ba & Da).
      destruct (lowerHex_digit y Hy) as (b & Eb & Bb & Db).
      destruct (IH rest) as (bs & Ebs & Dbs);
        [simpl in Hlen; lia | exact Heven | exact Hrest |].
      exists (a * 16 + b :: bs). cbn [Uuid.fromHex]. rewrite Ea, Eb, Ebs.
      split; [reflexivity|].
      unfold Uuid.toHex in *. cbn [flat_map app]. rewrite Dbs.
      rewrite Z.div_add_l, Z.div_small, Z.add_0_r by lia.
      rewrite Z.add_comm, Z.mod_add, Z.mod_small by lia.
      now rewrite Da, Db.
Qed.

Lemma hyphenate_dehyphenate (s : JsString) :
  length s = 36%nat -> Uuid.hyphenPositions s = true ->
  Uuid.hyphenate (Uuid.dehyphenate s) = s /\ length (Uuid.dehyphenate s) = 32%nat.
Proof.
  intros Hlen Hhy.
  do 36 (destruct s as [|? s]; [discriminate Hlen|]).
  destruct s; [|discriminate Hlen].
  unfold Uuid.hyphenPositions in Hhy. cbn [nth] in Hhy.
  apply andb_prop in Hhy as [Hhy H4]. apply andb_prop in Hhy as [Hhy H3].
  apply andb_prop in Hhy as [H1 H2].
  apply Z.eqb_eq in H1, H2, H3, H4. subst.
  split; reflexivity.
Qed.

Lemma uuid_roundtrip (s : JsString) :
  UuidText.isCanonical s = true ->
  exists b, Uuid.parse s = Some b /\ length b = 16%nat /\ Uuid.format b = s.
Proof.
  unfold UuidText.isCanonical. intros H.
  apply andb_prop in H as [H Hhex]. apply andb_prop in H as [Hlen Hhy].
  pose proof Hlen as Hlen'. apply Nat.eqb_eq in Hlen'.
  destruct (hyphenate_dehyphenate s Hlen' Hhy) as [Hs H32].
  destruct (hex_roundtrip_bounded 16 (Uuid.dehyphenate s)) as (b & Eb & Db).
  - rewrite H32. simpl. lia.
  - rewrite H32. reflexivity.
  - exact Hhex.
  - exists b. unfold Uuid.parse, Uuid.format. rewrite Hlen, Hhy. cbn [andb].
    split; [exact Eb|]. split; [|now rewrite Db].
    assert (L : length (Uuid.toHex b) = (2 * length b)%nat).
    { clear. unfold Uuid.toHex. induction b as [|x b IH]; simpl in *; lia. }
    rewrite Db, H32 in L. lia.
Qed.

Lemma writeUuid_ok (w : Oer.Writer) (s : JsString) (b : Buffer) :
  Uuid.parse s = Some b -> Uuid.writeUuid w s = Ok (w ++ b).
Proof. unfold Uuid.writeUuid, Oer.write. now intros ->. Qed.

Lemma readUuid_ok (b rest : Buffer) :
  length b = 16%nat -> Uuid.readUuid (b ++ rest) = Ok (Uuid.format b, rest).
Proof.
  intros H. unfold Uuid.readUuid, mapFst.
  rewrite read_app by (rewrite H; reflexivity). reflexivity.
Qed.

(* ===================================================================== *)
(** ** Writers produce the wire form, readers parse it *)
(* ===================================================================== *)

Section Loops.

Context {A : Type}.
Variable valid : A -> bool.
Variable writeOne : Oer.Writer -> A -> Result Oer.Writer.
Variable readOne : Oer.Reader -> Result (A * Oer.Reader).
Variable wire : A -> Buffer.

Hypothesis writeOne_ok :
  forall w x, valid x = true -> writeOne w x = Ok (w ++ wire x).
Hypothesis readOne_ok :
  forall x rest, valid x = true -> readOne (wire x ++ rest) = Ok (x, rest).

Lemma writeEach_ok (w : Oer.Writer) (xs : list A) :
  forallb valid xs = true ->
  writeEach writeOne w xs = Ok (w ++ flat_map wire xs).
Proof.
  revert w. induction xs as [|x xs IH]; intros w Hv; simpl.
  - now rewrite app_nil_r.
  - simpl in Hv. apply andb_prop in Hv as [Hx Hxs].
    rewrite writeOne_ok by assumption. cbn [bind].
    rewrite IH by assumption. now rewrite <- app_assoc.
Qed.

Lemma readEach_ok (xs : list A) (rest : Buffer) :
  forallb valid xs = true ->
  readEach readOne (length xs) (flat_map wire xs ++ rest) = Ok (xs, rest).
Proof.
  induction xs as [|x xs IH]; intros Hv; simpl; [reflexivity|].
  simpl in Hv. apply andb_prop in Hv as [Hx Hxs].
  rewrite <- app_assoc, readOne_ok by assumption. cbn [bind].
  rewrite IH by assumption. reflexivity.
Qed.

End Loops.

Lemma isAsciiText_parts (s : JsString) :
  isAsciiText s = true ->
  forallb (inRange 0 127) s = true /\ fitsOer (length (bufferFromAscii s)) = true.
Proof.
  unfold isAsciiText. intros H. apply andb_prop in H as [H1 H2].
  now rewrite bufferFromAscii_length.
Qed.

Lemma writeAscii_ok (w : Oer.Writer) (s : JsString) :
  isAsciiText s = true ->
  Oer.writeVarOctetString w (bufferFromAscii s) = Ok (w ++ asciiWire s).
Proof.
  intros H. apply isAsciiText_parts in H as [_ H].
  now apply writeVarOctetString_ok.
Qed.

Lemma readAscii_ok (s : JsString) (rest : Buffer) :
  isAsciiText s = true ->
  mapFst toStringAscii (Oer.readVarOctetString (asciiWire s ++ rest)) = Ok (s, rest).
Proof.
  intros H. apply isAsciiText_parts in H as [Hc H].
  unfold asciiWire, mapFst. rewrite readVarOctetString_ok by assumption.
  cbn [bind]. now rewrite ascii_roundtrip.
Qed.

Lemma readAsciiAsUtf8_ok (s : JsString) (rest : Buffer) :
  isAsciiText s = true ->
  mapFst toStringUtf8 (Oer.readVarOctetString (asciiWire s ++ rest)) = Ok (s, rest).
Proof.
  intros H. apply isAsciiText_parts in H as [Hc H].
  unfold asciiWire, mapFst. rewrite readVarOctetString_ok by assumption.
  cbn [bind]. now rewrite ascii_utf8_roundtrip.
Qed.

Lemma writeUtf8_ok (w : Oer.Writer) (s : JsString) :
  isUnicodeText s = true ->
  Oer.writeVarOctetString w (bufferFromUtf8 s) = Ok (w ++ utf8Wire s).
Proof.
  unfold isUnicodeText. intros H. apply andb_prop in H as [_ H].
  now apply writeVarOctetString_ok.
Qed.

Lemma readUtf8_ok (s : JsString) (rest : Buffer) :
  isUnicodeText s = true ->
  mapFst toStringUtf8 (Oer.readVarOctetString (utf8Wire s ++ rest)) = Ok (s, rest).
Proof.
  unfold isUnicodeText. intros H. apply andb_prop in H as [Hp H].
  unfold utf8Wire, mapFst. rewrite readVarOctetString_ok by assumption.
  cbn [bind]. now rewrite utf8_roundtrip.
Qed.

Lemma isUInt32_bounds (x : Z) : isUInt32 x = true -> 0 <= x < 256 ^ 4.
Proof. unfold isUInt32. rewrite inRange_spec. change (256 ^ 4) with 4294967296. lia. Qed.

Lemma isUInt16_bounds (x : Z) : isUInt16 x = true -> 0 <= x < 256 ^ 2.
Proof. unfold isUInt16. rewrite inRange_spec. change (256 ^ 2) with 65536. lia. Qed.

Lemma writeUInt32_ok (w : Oer.Writer) (x : Z) :
  isUInt32 x = true -> Oer.writeUInt32 w x = Ok (w ++ Oer.uintBE 4 x).
Proof.
  intros H. apply isUInt32_bounds in H. unfold Oer.writeUInt32.
  now rewrite writeUInt_ok by lia.
Qed.

Lemma readUInt32_ok (x : Z) (rest : Buffer) :
  isUInt32 x = true -> Oer.readUInt32 (Oer.uintBE 4 x ++ rest) = Ok (x, rest).
Proof.
  intros H. apply isUInt32_bounds in H. unfold Oer.readUInt32.
  change 4%nat with (Z.to_nat 4). now rewrite readUInt_ok by lia.
Qed.

Lemma writeCount_ok (w : Oer.Writer) (n : nat) :
  fitsOer n = true -> Oer.writeVarUInt w (Z.of_nat n) = Ok (w ++ varUInt (Z.of_nat n)).
Proof.
  unfold fitsOer. intros H. apply Z.ltb_lt in H. apply writeVarUInt_ok. lia.
Qed.

Lemma readCount_ok (n : nat) (rest : Buffer) :
  fitsOer n = true ->
  Oer.readVarUInt (varUInt (Z.of_nat n) ++ rest) = Ok (Z.of_nat n, rest).
Proof.
  unfold fitsOer. intros H. apply Z.ltb_lt in H. apply readVarUInt_ok. lia.
Qed.

(** *** Properties *)

Ltac flag_cases p :=
  destruct p as [[[] [] []] ? ?|[[] [] []] ? ?].

Lemma propMeta_byte (p : CcpRouteProp) : 0 <= propMeta p <= 255.
Proof. flag_cases p; vm_compute; split; discriminate. Qed.

Lemma propMeta_decodes (p : CcpRouteProp) :
  flagsConsistent (propCommon p) = true ->
  {| isWellKnown := jsBoolean (Z.land (propMeta p) 0x80);
     isTransitive := jsBoolean (Z.land (propMeta p) 0x40);
     isPartial := jsBoolean (Z.land (propMeta p) 0x20) |} = propCommon p
  /\ jsBoolean (Z.land (propMeta p) 0x10) = isUtf8 p.
Proof.
  flag_cases p; vm_compute; intros H; try discriminate H; split; reflexivity.
Qed.

Lemma validProp_parts (p : CcpRouteProp) :
  validProp p = true ->
  flagsConsistent (propCommon p) = true /\ isUInt16 (propId p) = true
  /\ match p with
     | CcpRoutePropBuffer _ _ value => fitsOer (length value) = true
     | CcpRoutePropString _ _ value => isUnicodeText value = true
     end.
Proof.
  unfold validProp. intros H.
  apply andb_prop in H as [H H3]. apply andb_prop in H as [H1 H2].
  repeat split; try assumption. destruct p; assumption.
Qed.

Lemma writeProp_ok (w : Oer.Writer) (p : CcpRouteProp) :
  validProp p = true -> writeProp w p = Ok (w ++ propWire p).
Proof.
  intros H. apply validProp_parts in H as (_ & Hid & Hval).
  apply isUInt16_bounds in Hid.
  unfold writeProp, propWire, Oer.writeUInt16.
  rewrite writeUInt8_ok by apply propMeta_byte. cbn [bind].
  rewrite writeUInt_ok by lia. cbn [bind].
  change (Z.to_nat 2) with 2%nat.
  destruct p as [c i v|c i v].
  - rewrite writeVarOctetString_ok by assumption. now rewrite <- ?app_assoc.
  - rewrite writeUtf8_ok by assumption. now rewrite <- ?app_assoc.
Qed.

Lemma readProp_ok (p : CcpRouteProp) (rest : Buffer) :
  validProp p = true -> readProp (propWire p ++ rest) = Ok (p, rest).
Proof.
  intros H. apply validProp_parts in H as (Hflags & Hid & Hval).
  apply isUInt16_bounds in Hid.
  destruct (propMeta_decodes p Hflags) as [Hc Hu].
  unfold readProp, propWire, Oer.readUInt16.
  rewrite <- ?app_assoc. cbn [app].
  rewrite readUInt8_cons. cbn [bind].
  change 2%nat with (Z.to_nat 2). rewrite readUInt_ok by lia. cbn [bind].
  rewrite Hc, Hu.
  destruct p as [c i v|c i v]; cbn [isUtf8 propId propCommon] in *.
  - rewrite readVarOctetString_ok by assumption. reflexivity.
  - unfold isUnicodeText in Hval. apply andb_prop in Hval as [Hp Hfit].
    unfold utf8Wire. rewrite readVarOctetString_ok by assumption. cbn [bind].
    now rewrite utf8_roundtrip.
Qed.

(** *** Routes *)

Lemma validRoute_parts (r : CcpRoute) :
  validRoute r = true ->
  isAsciiText (prefix r) = true
  /\ fitsOer (length (path r)) = true /\ forallb isAsciiText (path r) = true
  /\ length (auth r) = 32%nat
  /\ fitsOer (length (props r)) = true /\ forallb validProp (props r) = true.
Proof.
  unfold validRoute. rewrite !andb_true_iff, Nat.eqb_eq. tauto.
Qed.

Lemma writeRoute_ok (w : Oer.Writer) (r : CcpRoute) :
  validRoute r = true -> writeRoute w r = Ok (w ++ routeWire r).
Proof.
  intros H. apply validRoute_parts in H as (Hp & Hpl & Hpa & Ha & Hrl & Hr).
  unfold writeRoute, routeWire, Oer.write.
  rewrite writeAscii_ok by assumption. cbn [bind].
  rewrite writeCount_ok by assumption. cbn [bind].
  rewrite (writeEach_ok isAsciiText _ asciiWire)
    by (assumption || (intros; now apply writeAscii_ok)).
  cbn [bind]. rewrite Ha. cbn [Nat.eqb negb].
  rewrite writeCount_ok by assumption. cbn [bind].
  rewrite (writeEach_ok validProp _ propWire)
    by (assumption || (intros; now apply writeProp_ok)).
  now rewrite <- ?app_assoc.
Qed.

Lemma readRoute_ok (r : CcpRoute) (rest : Buffer) :
  validRoute r = true -> readRoute (routeWire r ++ rest) = Ok (r, rest).
Proof.
  intros H. apply validRoute_parts in H as (Hp & Hpl & Hpa & Ha & Hrl & Hr).
  unfold readRoute, routeWire. rewrite <- ?app_assoc.
  rewrite readAscii_ok by assumption. cbn [bind].
  rewrite readCount_ok by assumption. cbn [bind]. rewrite Nat2Z.id.
  rewrite (readEach_ok isAsciiText _ asciiWire)
    by (assumption || (intros; now apply readAscii_ok)).
  cbn [bind].
  rewrite read_app by (rewrite Ha; reflexivity). cbn [bind].
  rewrite readCount_ok by assumption. cbn [bind]. rewrite Nat2Z.id.
  rewrite (readEach_ok validProp _ propWire)
    by (assumption || (intros; now apply readProp_ok)).
  cbn [bind]. destruct r; reflexivity.
Qed.

(** *** Payloads *)

Lemma validUpdate_parts (u : CcpRouteUpdateRequest) :
  validUpdate u = true ->
  UuidText.isCanonical (routingTableId u) = true
  /\ isUInt32 (currentEpochIndex u) = true
  /\ isUInt32 (fromEpochIndex u) = true
  /\ isUInt32 (toEpochIndex u) = true
  /\ fitsOer (length (newRoutes u)) = true
  /\ forallb validRoute (newRoutes u) = true
  /\ fitsOer (length (withdrawnRoutes u)) = true
  /\ forallb isAsciiText (withdrawnRoutes u) = true.
Proof. unfold validUpdate. rewrite !andb_true_iff. tauto. Qed.

Lemma validControl_parts (r : CcpRouteControlRequest) :
  validControl r = true ->
  isAsciiText (speaker r) = true
  /\ UuidText.isCanonical (lastKnownRoutingTableId r) = true
  /\ isUInt32 (lastKnownEpoch r) = true
  /\ fitsOer (length (features r)) = true
  /\ forallb isUnicodeText (features r) = true.
Proof. unfold validControl. rewrite !andb_true_iff. tauto. Qed.

Lemma uuidWire_canonical (s : JsString) :
  UuidText.isCanonical s = true ->
  Uuid.parse s = Some (uuidWire s) /\ length (uuidWire s) = 16%nat
  /\ Uuid.format (uuidWire s) = s.
Proof.
  intros H. destruct (uuid_roundtrip s H) as (b & Hb & Hl & Hf).
  unfold uuidWire. rewrite Hb. auto.
Qed.

Lemma writeUpdatePayload_ok (u : CcpRouteUpdateRequest) :
  validUpdate u = true -> writeUpdatePayload u = Ok (updateWire u).
Proof.
  intros H.
  apply validUpdate_parts in H as (Hid & Hc & Hf & Ht & Hnl & Hn & Hwl & Hw).
  destruct (uuidWire_canonical _ Hid) as (Hparse & _ & _).
  unfold writeUpdatePayload, updateWire, updateTail, Oer.newWriter, Oer.getBuffer.
  rewrite (writeUuid_ok _ _ _ Hparse). cbn [bind].
  rewrite !writeUInt32_ok by assumption. cbn [bind].
  rewrite !writeUInt32_ok by assumption. cbn [bind].
  rewrite !writeUInt32_ok by assumption. cbn [bind].
  rewrite writeCount_ok by assumption. cbn [bind].
  rewrite (writeEach_ok validRoute _ routeWire)
    by (assumption || (intros; now apply writeRoute_ok)).
  cbn [bind].
  rewrite writeCount_ok by assumption. cbn [bind].
  rewrite (writeEach_ok isAsciiText _ asciiWire)
    by (assumption || (intros; now apply writeAscii_ok)).
  cbn [bind]. rewrite <- ?app_assoc. reflexivity.
Qed.

Lemma readUpdatePayload_ok (u : CcpRouteUpdateRequest) :
  validUpdate u = true -> readUpdatePayload (updateWire u) = Ok u.
Proof.
  intros H.
  apply validUpdate_parts in H as (Hid & Hc & Hf & Ht & Hnl & Hn & Hwl & Hw).
  destruct (uuidWire_canonical _ Hid) as (_ & Hlen & Hfmt).
  unfold readUpdatePayload, updateWire, updateTail, Oer.newReader.
  rewrite <- ?app_assoc.
  rewrite readUuid_ok by assumption. cbn [bind]. rewrite Hfmt.
  rewrite readUInt32_ok by assumption. cbn [bind].
  rewrite readUInt32_ok by assumption. cbn [bind].
  rewrite readUInt32_ok by assumption. cbn [bind].
  rewrite readCount_ok by assumption. cbn [bind]. rewrite Nat2Z.id.
  rewrite (readEach_ok validRoute _ routeWire)
    by (assumption || (intros; now apply readRoute_ok)).
  cbn [bind].
  rewrite <- (app_nil_r (flat_map asciiWire (withdrawnRoutes u))).
  rewrite readCount_ok by assumption. cbn [bind]. rewrite Nat2Z.id.
  rewrite (readEach_ok isAsciiText _ asciiWire)
    by (assumption || (intros; now apply readAsciiAsUtf8_ok)).
  cbn [bind]. destruct u; reflexivity.
Qed.

Lemma writeControlPayload_ok (r : CcpRouteControlRequest) :
  validControl r = true -> writeControlPayload r = Ok (controlWire r).
Proof.
  intros H. apply validControl_parts in H as (Hs & Hid & He & Hfl & Hf).
  destruct (uuidWire_canonical _ Hid) as (Hparse & _ & _).
  unfold writeControlPayload, controlWire, Oer.newWriter, Oer.getBuffer.
  rewrite writeAscii_ok by assumption. cbn [bind].
  rewrite (writeUuid_ok _ _ _ Hparse). cbn [bind].
  rewrite writeUInt32_ok by assumption. cbn [bind].
  rewrite writeCount_ok by assumption. cbn [bind].
  rewrite (writeEach_ok isUnicodeText _ utf8Wire)
    by (assumption || (intros; now apply writeUtf8_ok)).
  cbn [bind]. rewrite <- ?app_assoc. reflexivity.
Qed.

Lemma readControlPayload_ok (r : CcpRouteControlRequest) :
  validControl r = true -> readControlPayload (controlWire r) = Ok r.
Proof.
  intros H. apply validControl_parts in H as (Hs & Hid & He & Hfl & Hf).
  destruct (uuidWire_canonical _ Hid) as (_ & Hlen & Hfmt).
  unfold readControlPayload, controlWire, Oer.newReader.
  rewrite readAscii_ok by assumption. cbn [bind].
  rewrite readUuid_ok by assumption. cbn [bind]. rewrite Hfmt.
  rewrite readUInt32_ok by assumption. cbn [bind].
  rewrite <- (app_nil_r (flat_map utf8Wire (features r))).
  rewrite readCount_ok by assumption. cbn [bind]. rewrite Nat2Z.id.
  rewrite (readEach_ok isUnicodeText _ utf8Wire)
    by (assumption || (intros; now apply readUtf8_ok)).
  cbn [bind]. destruct r; reflexivity.
Qed.

(** *** Writers only append, and a route with a wrong auth never encodes *)

Lemma writeUInt_appends (w w' : Oer.Writer) (v len : Z) :
  Oer.writeUInt w v len = Ok w' -> exists e, w' = w ++ e.
Proof.
  unfold Oer.writeUInt, Oer.write.
  repeat match goal with |- context [if ?c then _ else _] => destruct c end;
    intros H; inversion H; eauto.
Qed.

Lemma writeVarOctetString_appends (w w' : Oer.Writer) (b : Buffer) :
  Oer.writeVarOctetString w b = Ok w' -> exists e, w' = w ++ e.
Proof.
  unfold Oer.writeVarOctetString, Oer.writeUInt8, Oer.write.
  destruct (Z.of_nat (length b) <=? 127).
  - destruct (Oer.writeUInt w _ 1) as [w1|] eqn:E1; cbn [bind]; [|discriminate].
    apply writeUInt_appends in E1 as [e1 ->].
    intros H. inversion H. rewrite <- app_assoc. eauto.
  - destruct (Oer.writeUInt w _ 1) as [w1|] eqn:E1; cbn [bind]; [|discriminate].
    apply writeUInt_appends in E1 as [e1 ->].
    destruct (Oer.writeUInt (w ++ e1) _ _) as [w2|] eqn:E2; cbn [bind]; [|discriminate].
    apply writeUInt_appends in E2 as [e2 ->].
    intros H. inversion H. rewrite <- !app_assoc. eauto.
Qed.

Lemma writeRoute_wrong_auth (w : Oer.Writer) (r : CcpRoute) :
  length (auth r) <> 32%nat -> exists e, writeRoute w r = Throw e.
Proof.
  intros Ha. unfold writeRoute.
  destruct (Oer.writeVarOctetString w _) as [w1|]; cbn [bind]; [|eauto].
  destruct (Oer.writeVarUInt w1 _) as [w2|]; cbn [bind]; [|eauto].
  destruct (writeEach _ w2 _) as [w3|]; cbn [bind]; [|eauto].
  apply Nat.eqb_neq in Ha. rewrite Ha. cbn [negb]. eauto.
Qed.

Lemma writeEach_wrong_auth (w : Oer.Writer) (routes : list CcpRoute) (r : CcpRoute) :
  In r routes -> length (auth r) <> 32%nat ->
  exists e, writeEach writeRoute w routes = Throw e.
Proof.
  intros Hin Ha. revert w.
  induction routes as [|x routes IH]; intros w; [contradiction|].
  cbn [writeEach].
  destruct Hin as [->|Hin].
  - destruct (writeRoute_wrong_auth w r Ha) as [e ->]. cbn [bind]. eauto.
  - destruct (writeRoute w x) as [w1|]; cbn [bind]; [|eauto]. now apply IH.
Qed.

Lemma writeUpdatePayload_wrong_auth (u : CcpRouteUpdateRequest) (r : CcpRoute) :
  In r (newRoutes u) -> length (auth r) <> 32%nat ->
  exists e, writeUpdatePayload u = Throw e.
Proof.
  intros Hin Ha. unfold writeUpdatePayload.
  destruct (Uuid.writeUuid _ _) as [w1|]; cbn [bind]; [|eauto].
  destruct (Oer.writeUInt32 w1 _) as [w2|]; cbn [bind]; [|eauto].
  destruct (Oer.writeUInt32 w2 _) as [w3|]; cbn [bind]; [|eauto].
  destruct (Oer.writeUInt32 w3 _) as [w4|]; cbn [bind]; [|eauto].
  destruct (Oer.writeVarUInt w4 _) as [w5|]; cbn [bind]; [|eauto].
  destruct (writeEach_wrong_auth w5 _ r Hin Ha) as [e ->]. cbn [bind]. eauto.
Qed.

Lemma writeEach_app {A} (writeOne : Oer.Writer -> A -> Result Oer.Writer)
    (w : Oer.Writer) (xs ys : list A) :
  writeEach writeOne w (xs ++ ys)
  = bind (writeEach writeOne w xs) (fun w' => writeEach writeOne w' ys).
Proof.
  revert w. induction xs as [|x xs IH]; intros w; cbn [app writeEach bind];
    [reflexivity|].
  destruct (writeOne w x) as [w1|]; cbn [bind]; [apply IH|reflexivity].
Qed.

Lemma writeRoute_split (w : Oer.Writer) (r : CcpRoute) :
  writeRoute w r
  = bind (writeRouteBeforeAuth w r)
      (fun writer =>
         if negb (length (auth r) =? 32)%nat then
           Throw (Error (js "route auth must be 32 bytes. prefix=" ++ prefix r))
         else
           bind (Oer.writeVarUInt (Oer.write writer (auth r))
                   (Z.of_nat (length (props r))))
                (fun writer => writeEach writeProp writer (props r))).
Proof.
  unfold writeRoute, writeRouteBeforeAuth.
  destruct (Oer.writeVarOctetString w _) as [w1|]; cbn [bind]; [|reflexivity].
  destruct (Oer.writeVarUInt w1 _) as [w2|]; cbn [bind]; reflexivity.
Qed.

Lemma writeUpdatePayload_split (u : CcpRouteUpdateRequest) :
  writeUpdatePayload u
  = bind (writeUpdateHeader u)
      (fun writer =>
         bind (writeEach writeRoute writer (newRoutes u))
           (fun writer =>
              bind (Oer.writeVarUInt writer (Z.of_nat (length (withdrawnRoutes u))))
                (fun writer =>
                   bind (writeEach
                           (fun writer route =>
                              Oer.writeVarOctetString writer (bufferFromAscii route))
                           writer (withdrawnRoutes u))
                     (fun writer => Ok (Oer.getBuffer writer))))).
Proof.
  unfold writeUpdatePayload, writeUpdateHeader.
  destruct (Uuid.writeUuid _ _) as [w1|]; cbn [bind]; [|reflexivity].
  destruct (Oer.writeUInt32 w1 _) as [w2|]; cbn [bind]; [|reflexivity].
  destruct (Oer.writeUInt32 w2 _) as [w3|]; cbn [bind]; [|reflexivity].
  destruct (Oer.writeUInt32 w3 _) as [w4|]; cbn [bind]; reflexivity.
Qed.

Lemma writeEach_first_wrong_auth (w w' w'' : Oer.Writer)
    (before after : list CcpRoute) (r : CcpRoute) :
  writeEach writeRoute w before = Ok w' ->
  writeRouteBeforeAuth w' r = Ok w'' ->
  length (auth r) <> 32%nat ->
  writeEach writeRoute w (before ++ r :: after)
  = Throw (Error (js "route auth must be 32 bytes. prefix=" ++ prefix r)).
Proof.
  intros Hb Hw Ha. rewrite writeEach_app, Hb. cbn [bind writeEach].
  rewrite writeRoute_split, Hw. cbn [bind].
  apply Nat.eqb_neq in Ha. rewrite Ha. reflexivity.
Qed.

(** *** Which errors the writes raise *)

Lemma writeUInt_failure (w : Oer.Writer) (v len : Z) (e : JsError) :
  Oer.writeUInt w v len = Throw e -> isWriteFailure e.
Proof.
  unfold Oer.writeUInt.
  repeat match goal with |- context [if ?c then _ else _] => destruct c end;
    intros H; inversion H; exact I.
Qed.

Lemma writeVarOctetString_failure (w : Oer.Writer) (b : Buffer) (e : JsError) :
  Oer.writeVarOctetString w b = Throw e -> isWriteFailure e.
Proof.
  unfold Oer.writeVarOctetString, Oer.writeUInt8.
  destruct (Z.of_nat (length b) <=? 127).
  - destruct (Oer.writeUInt w _ 1) as [w1|e1] eqn:E1; cbn [bind]; [discriminate|].
    intros H. inversion H. subst. now apply writeUInt_failure in E1.
  - destruct (Oer.writeUInt w _ 1) as [w1|e1] eqn:E1; cbn [bind].
    + destruct (Oer.writeUInt w1 _ _) as [w2|e2] eqn:E2; cbn [bind]; [discriminate|].
      intros H. inversion H. subst. now apply writeUInt_failure in E2.
    + intros H. inversion H. subst. now apply writeUInt_failure in E1.
Qed.

Lemma writeVarUInt_failure (w : Oer.Writer) (v : Z) (e : JsError) :
  Oer.writeVarUInt w v = Throw e -> isWriteFailure e.
Proof.
  unfold Oer.writeVarUInt.
  destruct (v <? 0); [intros H; inversion H; exact I|].
  destruct (Oer.MAX_INT_BYTES <? _); [intros H; inversion H; exact I|].
  apply writeVarOctetString_failure.
Qed.

Lemma writeUuid_failure (w : Oer.Writer) (s : JsString) (e : JsError) :
  Uuid.writeUuid w s = Throw e -> isWriteFailure e.
Proof.
  unfold Uuid.writeUuid. destruct (Uuid.parse s); [discriminate|].
  intros H. inversion H. exact I.
Qed.

Lemma writeEach_failure {A} (writeOne : Oer.Writer -> A -> Result Oer.Writer)
    (P : A -> Prop) (xs : list A) :
  (forall w x e, P x -> writeOne w x = Throw e -> isWriteFailure e) ->
  Forall P xs ->
  forall w e, writeEach writeOne w xs = Throw e -> isWriteFailure e.
Proof.
  intros Hone Hall. induction Hall as [|x xs Hx Hxs IH]; intros w e;
    cbn [writeEach]; [discriminate|].
  destruct (writeOne w x) as [w1|e1] eqn:E1; cbn [bind].
  - apply IH.
  - intros H. inversion H. subst. now apply (Hone w x).
Qed.

Lemma Forall_True {A} (xs : list A) : Forall (fun _ => True) xs.
Proof. induction xs; constructor; auto. Qed.

Lemma writeProp_failure (w : Oer.Writer) (p : CcpRouteProp) (e : JsError) :
  writeProp w p = Throw e -> isWriteFailure e.
Proof.
  unfold writeProp, Oer.writeUInt8, Oer.writeUInt16.
  destruct (Oer.writeUInt w _ 1) as [w1|e1] eqn:E1; cbn [bind].
  - destruct (Oer.writeUInt w1 _ 2) as [w2|e2] eqn:E2; cbn [bind].
    + apply writeVarOctetString_failure.
    + intros H. inversion H. subst. now apply writeUInt_failure in E2.
  - intros H. inversion H. subst. now apply writeUInt_failure in E1.
Qed.

Lemma writeRouteBeforeAuth_failure (w : Oer.Writer) (r : CcpRoute) (e : JsError) :
  writeRouteBeforeAuth w r = Throw e -> isWriteFailure e.
Proof.
  unfold writeRouteBeforeAuth.
  destruct (Oer.writeVarOctetString w _) as [w1|e1] eqn:E1; cbn [bind].
  - destruct (Oer.writeVarUInt w1 _) as [w2|e2] eqn:E2; cbn [bind].
    + apply (writeEach_failure _ (fun _ => True)); [|apply Forall_True].
      intros w0 x e0 _. apply writeVarOctetString_failure.
    + intros H. inversion H. subst. now apply writeVarUInt_failure in E2.
  - intros H. inversion H. subst. now apply writeVarOctetString_failure in E1.
Qed.

Lemma writeRoute_failure (w : Oer.Writer) (r : CcpRoute) (e : JsError) :
  length (auth r) = 32%nat -> writeRoute w r = Throw e -> isWriteFailure e.
Proof.
  intros Ha. rewrite writeRoute_split.
  destruct (writeRouteBeforeAuth w r) as [w1|e1] eqn:E1; cbn [bind].
  - rewrite Ha. cbn [Nat.eqb negb].
    destruct (Oer.writeVarUInt _ _) as [w2|e2] eqn:E2; cbn [bind].
    + apply (writeEach_failure _ (fun _ => True)); [|apply Forall_True].
      intros w0 x e0 _. apply writeProp_failure.
    + intros H. inversion H. subst. now apply writeVarUInt_failure in E2.
  - intros H. inversion H. subst. now apply writeRouteBeforeAuth_failure in E1.
Qed.

Lemma writeUpdateHeader_failure (u : CcpRouteUpdateRequest) (e : JsError) :
  writeUpdateHeader u = Throw e -> isWriteFailure e.
Proof.
  unfold writeUpdateHeader, Oer.writeUInt32.
  destruct (Uuid.writeUuid _ _) as [w1|e1] eqn:E1; cbn [bind].
  2:{ intros H. inversion H. subst. now apply writeUuid_failure in E1. }
  destruct (Oer.writeUInt w1 _ 4) as [w2|e2] eqn:E2; cbn [bind].
  2:{ intros H. inversion H. subst. now apply writeUInt_failure in E2. }
  destruct (Oer.writeUInt w2 _ 4) as [w3|e3] eqn:E3; cbn [bind].
  2:{ intros H. inversion H. subst. now apply writeUInt_failure in E3. }
  destruct (Oer.writeUInt w3 _ 4) as [w4|e4] eqn:E4; cbn [bind].
  2:{ intros H. inversion H. subst. now apply writeUInt_failure in E4. }
  apply writeVarUInt_failure.
Qed.

(** Up to and including the first route with a wrong auth, the loop
    either fails inside a write or stops at that route's auth check. *)
Lemma writeEach_first_wrong_auth_cases (w : Oer.Writer)
    (before after : list CcpRoute) (r : CcpRoute) :
  Forall (fun x => length (auth x) = 32%nat) before ->
  length (auth r) <> 32%nat ->
  writeEach writeRoute w (before ++ r :: after)
  = Throw (Error (js "route auth must be 32 bytes. prefix=" ++ prefix r))
  \/ exists e,
      writeEach writeRoute w (before ++ r :: after) = Throw e /\ isWriteFailure e.
Proof.
  intros Hb Ha. rewrite writeEach_app.
  destruct (writeEach writeRoute w before) as [w1|e1] eqn:E1; cbn [bind writeEach].
  - rewrite writeRoute_split.
    destruct (writeRouteBeforeAuth w1 r) as [w2|e2] eqn:E2; cbn [bind].
    + apply Nat.eqb_neq in Ha. rewrite Ha. left. reflexivity.
    + right. exists e2. split; [reflexivity|].
      now apply writeRouteBeforeAuth_failure in E2.
  - right. exists e1. split; [reflexivity|].
    apply (writeEach_failure _ _ _ (fun w0 x e0 Hx => writeRoute_failure w0 x e0 Hx)
             Hb _ _ E1).
Qed.

(* ===================================================================== *)
(** ** The reference envelope codec round-trips *)
(* ===================================================================== *)

Lemma unframe_frame (l rest : list Z) :
  Loopback.unframe (Loopback.frame l ++ rest) = Ok (l, rest).
Proof.
  unfold Loopback.unframe, Loopback.frame. cbn [app].
  destruct (Z.ltb_spec (Z.of_nat (length l)) 0); [lia|].
  rewrite length_app.
  destruct (Z.ltb_spec (Z.of_nat (length l + length rest)) (Z.of_nat (length l)));
    [lia|].
  cbn [orb]. rewrite Nat2Z.id.
  rewrite firstn_app, Nat.sub_diag, firstn_all, firstn_O, app_nil_r.
  rewrite skipn_app, Nat.sub_diag, skipn_all. reflexivity.
Qed.

Lemma loopback_prepare_roundtrip (p : IlpPrepare) :
  envelopeRoundTripsOn Loopback.serializeIlpPrepare Loopback.deserializeIlpPrepare p.
Proof.
  eexists. split; [reflexivity|].
  unfold Loopback.deserializeIlpPrepare, Loopback.prepareBytes.
  rewrite Z.eqb_refl.
  rewrite unframe_frame. cbn [bind].
  rewrite unframe_frame. cbn [bind].
  rewrite unframe_frame. cbn [bind app].
  destruct p; reflexivity.
Qed.

(* ===================================================================== *)
(** ** Properties of the codec *)
(* ===================================================================== *)

Section Claims.

Variable serializeIlpPrepare : IlpPrepare -> Result Buffer.
Variable deserializeIlpPrepare : Buffer -> Result IlpPrepare.
Variable serializeIlpFulfill : IlpFulfill -> Result Buffer.
Variable deserializeIlpFulfill : Buffer -> Result IlpFulfill.

Local Abbreviation encodeControl := (serializeCcpRouteControlRequest serializeIlpPrepare).
Local Abbreviation decodeControl := (deserializeCcpRouteControlRequest deserializeIlpPrepare).
Local Abbreviation encodeUpdate := (serializeCcpRouteUpdateRequest serializeIlpPrepare).
Local Abbreviation decodeUpdate := (deserializeCcpRouteUpdateRequest deserializeIlpPrepare).

(** *** The envelope checks, in order *)

Lemma control_checks_pass (now : Z) (request : Buffer) (ilp : IlpPrepare) :
  deserializeIlpPrepare request = Ok ilp ->
  destination ilp = CCP_CONTROL_DESTINATION ->
  executionCondition ilp = PEER_PROTOCOL_CONDITION ->
  now <= expiresAt ilp ->
  decodeControl now request = readControlPayload (data ilp).
Proof.
  intros Hd Hdest Hcond Hexp. unfold deserializeCcpRouteControlRequest.
  rewrite Hd. cbn [bind]. rewrite Hdest, Hcond.
  unfold string_eqb. rewrite !buffer_equals_refl. cbn [negb].
  destruct (Z.ltb_spec (expiresAt ilp) now); [lia|reflexivity].
Qed.

Lemma update_checks_pass (now : Z) (request : Buffer) (ilp : IlpPrepare) :
  deserializeIlpPrepare request = Ok ilp ->
  destination ilp = CCP_UPDATE_DESTINATION ->
  executionCondition ilp = PEER_PROTOCOL_CONDITION ->
  now <= expiresAt ilp ->
  decodeUpdate now request = readUpdatePayload (data ilp).
Proof.
  intros Hd Hdest Hcond Hexp. unfold deserializeCcpRouteUpdateRequest.
  rewrite Hd. cbn [bind]. rewrite Hdest, Hcond.
  unfold string_eqb. rewrite !buffer_equals_refl. cbn [negb].
  destruct (Z.ltb_spec (expiresAt ilp) now); [lia|reflexivity].
Qed.

Lemma control_roundtrip_core (now now' : Z) (r : CcpRouteControlRequest) :
  validControl r = true ->
  (forall payload,
      envelopeRoundTripsOn serializeIlpPrepare deserializeIlpPrepare
        (peerPrepare CCP_CONTROL_DESTINATION
                     (now + PEER_PROTOCOL_EXPIRY_DURATION) payload)) ->
  now' <= now + PEER_PROTOCOL_EXPIRY_DURATION ->
  exists request,
    encodeControl now r = Ok request /\ decodeControl now' request = Ok r.
Proof.
  intros Hv Henv Hnow.
  destruct (Henv (controlWire r)) as (request & Hser & Hdeser).
  exists request. unfold serializeCcpRouteControlRequest.
  rewrite writeControlPayload_ok by assumption. cbn [bind].
  split; [exact Hser|].
  rewrite (control_checks_pass now' request _ Hdeser) by (reflexivity || assumption).
  now apply readControlPayload_ok.
Qed.

Lemma update_roundtrip_core (now now' : Z) (u : CcpRouteUpdateRequest) :
  validUpdate u = true ->
  (forall payload,
      envelopeRoundTripsOn serializeIlpPrepare deserializeIlpPrepare
        (peerPrepare CCP_UPDATE_DESTINATION
                     (now + PEER_PROTOCOL_EXPIRY_DURATION) payload)) ->
  now' <= now + PEER_PROTOCOL_EXPIRY_DURATION ->
  exists request,
    encodeUpdate now u = Ok request /\ decodeUpdate now' request = Ok u.
Proof.
  intros Hv Henv Hnow.
  destruct (Henv (updateWire u)) as (request & Hser & Hdeser).
  exists request. unfold serializeCcpRouteUpdateRequest.
  rewrite writeUpdatePayload_ok by assumption. cbn [bind].
  split; [exact Hser|].
  rewrite (update_checks_pass now' request _ Hdeser) by (reflexivity || assumption).
  now apply readUpdatePayload_ok.
Qed.

(** C1. Every valid update request (canonical routing-table id, epoch
    indices in the unsigned 32-bit range, each route with an ASCII prefix
    and hops, a 32-byte auth and properties whose flags obey the
    dependency rule, ASCII withdrawn prefixes) encodes, and decoding the
    encoded request within the expiry window gives back the same record:
    every field, with routes, hops, properties and withdrawn prefixes in
    their order.  The envelope codec is assumed to round-trip on the
    envelopes the encoder builds. *)
Theorem update_request_roundtrip (now now' : Z) (u : CcpRouteUpdateRequest) :
  validUpdate u = true ->
  (forall payload,
      envelopeRoundTripsOn serializeIlpPrepare deserializeIlpPrepare
        (peerPrepare CCP_UPDATE_DESTINATION
                     (now + PEER_PROTOCOL_EXPIRY_DURATION) payload)) ->
  now' <= now + PEER_PROTOCOL_EXPIRY_DURATION ->
  exists request,
    serializeCcpRouteUpdateRequest serializeIlpPrepare now u = Ok request
    /\ deserializeCcpRouteUpdateRequest deserializeIlpPrepare now' request = Ok u.
Proof. apply update_roundtrip_core. Qed.

(** C5. Every valid control request (ASCII speaker, canonical
    routing-table id, epoch in the unsigned 32-bit range, Unicode
    features) encodes, and decoding the encoded request within the expiry
    window gives back the same speaker, lastKnownRoutingTableId,
    lastKnownEpoch and features in their order.  The envelope codec is
    assumed to round-trip on the envelopes the encoder builds. *)
Theorem control_request_roundtrip (now now' : Z) (r : CcpRouteControlRequest) :
  validControl r = true ->
  (forall payload,
      envelopeRoundTripsOn serializeIlpPrepare deserializeIlpPrepare
        (peerPrepare CCP_CONTROL_DESTINATION
                     (now + PEER_PROTOCOL_EXPIRY_DURATION) payload)) ->
  now' <= now + PEER_PROTOCOL_EXPIRY_DURATION ->
  exists request,
    serializeCcpRouteControlRequest serializeIlpPrepare now r = Ok request
    /\ deserializeCcpRouteControlRequest deserializeIlpPrepare now' request = Ok r.
Proof. apply control_roundtrip_core. Qed.

(** C2, as the code has it.  For an envelope addressed to the decoder
    and carrying the peer-protocol condition, the decoder raises the
    "expired" error when the current time is strictly after the expiry
    timestamp; at a current time equal to or before the expiry the check
    passes and the result is that of parsing the payload. *)
Theorem expired_after_expiry (now : Z) (request : Buffer) (ilp : IlpPrepare) :
  deserializeIlpPrepare request = Ok ilp ->
  executionCondition ilp = PEER_PROTOCOL_CONDITION ->
  (destination ilp = CCP_CONTROL_DESTINATION ->
     (expiresAt ilp < now ->
        deserializeCcpRouteControlRequest deserializeIlpPrepare now request
        = Throw (Error (js "CCP route control request packet is expired.")))
     /\ (now <= expiresAt ilp ->
        deserializeCcpRouteControlRequest deserializeIlpPrepare now request
        = readControlPayload (data ilp)))
  /\ (destination ilp = CCP_UPDATE_DESTINATION ->
     (expiresAt ilp < now ->
        deserializeCcpRouteUpdateRequest deserializeIlpPrepare now request
        = Throw (Error (js "CCP route update request packet is expired.")))
     /\ (now <= expiresAt ilp ->
        deserializeCcpRouteUpdateRequest deserializeIlpPrepare now request
        = readUpdatePayload (data ilp))).
Proof.
  intros Hd Hcond. split; intros Hdest; split; intros Hexp.
  - unfold deserializeCcpRouteControlRequest.
    rewrite Hd. cbn [bind]. rewrite Hdest, Hcond.
    unfold string_eqb. rewrite !buffer_equals_refl. cbn [negb].
    destruct (Z.ltb_spec (expiresAt ilp) now); [reflexivity|lia].
  - now apply control_checks_pass.
  - unfold deserializeCcpRouteUpdateRequest.
    rewrite Hd. cbn [bind]. rewrite Hdest, Hcond.
    unfold string_eqb. rewrite !buffer_equals_refl. cbn [negb].
    destruct (Z.ltb_spec (expiresAt ilp) now); [reflexivity|lia].
  - now apply update_checks_pass.
Qed.

(** C3, as the code has it.  An update request with a route whose auth
    is not 32 bytes long never encodes: the encoder raises an error and
    returns no buffer.  Let [r] be a route with a wrong auth.  Whenever
    the writes that come before its auth check succeed (the header, the
    routes before it, its own prefix and hops), the error is the one
    whose message is "route auth must be 32 bytes. prefix=" followed by
    the prefix of [r], which the message therefore includes.  And when
    [r] is the first route with a wrong auth, the error is either that
    one or one raised inside an earlier write. *)
Theorem wrong_auth_is_rejected (now : Z) (u : CcpRouteUpdateRequest) :
  (forall r,
      In r (newRoutes u) -> length (auth r) <> 32%nat ->
      exists e, serializeCcpRouteUpdateRequest serializeIlpPrepare now u = Throw e)
  /\ (forall before r after,
      newRoutes u = before ++ r :: after ->
      length (auth r) <> 32%nat ->
      (forall w w' w'',
          writeUpdateHeader u = Ok w ->
          writeEach writeRoute w before = Ok w' ->
          writeRouteBeforeAuth w' r = Ok w'' ->
          serializeCcpRouteUpdateRequest serializeIlpPrepare now u
          = Throw (Error (js "route auth must be 32 bytes. prefix=" ++ prefix r))
          /\ Includes (js "route auth must be 32 bytes. prefix=" ++ prefix r)
                      (prefix r))
      /\ (Forall (fun x => length (auth x) = 32%nat) before ->
          serializeCcpRouteUpdateRequest serializeIlpPrepare now u
          = Throw (Error (js "route auth must be 32 bytes. prefix=" ++ prefix r))
          \/ exists e,
              serializeCcpRouteUpdateRequest serializeIlpPrepare now u = Throw e
              /\ isWriteFailure e)).
Proof.
  split.
  - intros r Hin Ha. unfold serializeCcpRouteUpdateRequest.
    destruct (writeUpdatePayload_wrong_auth u r Hin Ha) as [e ->].
    cbn [bind]. eauto.
  - intros before r after Hroutes Ha. split.
    + intros w w' w'' Hh Hb Hw. split.
      * unfold serializeCcpRouteUpdateRequest.
        rewrite writeUpdatePayload_split, Hh. cbn [bind].
        rewrite Hroutes, (writeEach_first_wrong_auth w w' w'') by assumption.
        reflexivity.
      * exists (js "route auth must be 32 bytes. prefix="), [].
        now rewrite app_nil_r.
    + intros Hb. unfold serializeCcpRouteUpdateRequest.
      rewrite writeUpdatePayload_split.
      destruct (writeUpdateHeader u) as [w|e] eqn:Eh; cbn [bind].
      * rewrite Hroutes.
        destruct (writeEach_first_wrong_auth_cases w before after r Hb Ha)
          as [->|(e & -> & He)]; cbn [bind]; [left; reflexivity|].
        right. eauto.
      * right. exists e. split; [reflexivity|].
        now apply writeUpdateHeader_failure in Eh.
Qed.

(** C4. Given a response that unwraps to an envelope, the response
    decoder raises the "expected fulfillment" error exactly when the
    envelope's fulfillment differs from 32 zero bytes and succeeds
    exactly when it equals them; the response encoder hands the envelope
    codec the 32 zero bytes as fulfillment and an empty data payload. *)
Theorem response_fulfillment_is_checked :
  (forall response ilp,
      deserializeIlpFulfill response = Ok ilp ->
      (deserializeCcpResponse deserializeIlpFulfill response
       = Throw (Error (js "CCP response does not contain the expected fulfillment."))
       <-> Fulfill.fulfillment ilp <> repeat 0 32)
      /\ (deserializeCcpResponse deserializeIlpFulfill response = Ok tt
          <-> Fulfill.fulfillment ilp = repeat 0 32))
  /\ serializeCcpResponse serializeIlpFulfill
     = serializeIlpFulfill
         {| Fulfill.fulfillment := repeat 0 32; Fulfill.data := [] |}.
Proof.
  split; [|reflexivity].
  intros response ilp Hd. unfold deserializeCcpResponse.
  rewrite Hd. cbn [bind].
  change PEER_PROTOCOL_FULFILLMENT with (repeat 0 32).
  destruct (buffer_equals (repeat 0 32) (Fulfill.fulfillment ilp)) eqn:E; cbn [negb].
  - apply buffer_equals_eq in E. split; split; intros H;
      try discriminate; try reflexivity; congruence.
  - assert (Hne : Fulfill.fulfillment ilp <> repeat 0 32).
    { intros Heq. rewrite Heq, buffer_equals_refl in E. discriminate. }
    split; split; intros H; try discriminate; try reflexivity;
      try assumption; contradiction.
Qed.

(** C6. Whatever the flags of the property, in the metadata byte the
    encoder computes the transitive bit (0x40) is set only when the
    well-known bit (0x80) is clear, the partial bit (0x20) is set only
    when the transitive bit is set and the well-known bit is clear, and
    the four low bits (0x0F) are zero; and that byte is the first one the
    property encoder appends to the writer. *)
Theorem metadata_byte_respects_dependencies (prop : CcpRouteProp) :
  (Z.land (propMeta prop) 0x40 <> 0 -> Z.land (propMeta prop) 0x80 = 0)
  /\ (Z.land (propMeta prop) 0x20 <> 0 ->
      Z.land (propMeta prop) 0x40 <> 0 /\ Z.land (propMeta prop) 0x80 = 0)
  /\ Z.land (propMeta prop) 0x0F = 0
  /\ (forall writer writer',
        writeProp writer prop = Ok writer' ->
        exists rest, writer' = writer ++ propMeta prop :: rest).
Proof.
  split; [|split; [|split]].
  - flag_cases prop; vm_compute; intros H; congruence.
  - flag_cases prop; vm_compute; intros H; split; congruence.
  - flag_cases prop; reflexivity.
  - intros writer writer'. unfold writeProp.
    rewrite writeUInt8_ok by apply propMeta_byte. cbn [bind].
    unfold Oer.writeUInt16.
    destruct (Oer.writeUInt _ (propId prop) 2) as [w1|] eqn:E1;
      cbn [bind]; [|discriminate].
    apply writeUInt_appends in E1 as [e1 ->].
    intros H. apply writeVarOctetString_appends in H as [e2 ->].
    exists (e1 ++ e2). rewrite <- !app_assoc. reflexivity.
Qed.

(** C7. When the envelope's destination is not the literal the decoder
    expects ("peer.route.control" for the control decoder,
    "peer.route.update" for the update decoder), the decoder raises the
    TypeError that names the expected CCP message type, and returns no
    record. *)
Theorem wrong_destination_is_rejected (now : Z) (request : Buffer) (ilp : IlpPrepare) :
  deserializeIlpPrepare request = Ok ilp ->
  (destination ilp <> CCP_CONTROL_DESTINATION ->
     deserializeCcpRouteControlRequest deserializeIlpPrepare now request
     = Throw (TypeError (js "packet is not a CCP route control request.")))
  /\ (destination ilp <> CCP_UPDATE_DESTINATION ->
     deserializeCcpRouteUpdateRequest deserializeIlpPrepare now request
     = Throw (TypeError (js "packet is not a CCP route update request."))).
Proof.
  intros Hd. split; intros Hdest.
  - unfold deserializeCcpRouteControlRequest. rewrite Hd. cbn [bind].
    unfold string_eqb. now rewrite buffer_equals_neq.
  - unfold deserializeCcpRouteUpdateRequest. rewrite Hd. cbn [bind].
    unfold string_eqb. now rewrite buffer_equals_neq.
Qed.

(** C8. When the envelope's destination is the expected one but its
    execution condition is not, byte for byte, the fixed 32-byte
    peer-protocol condition, each request decoder raises the "correct
    condition" error, and returns no record. *)
Theorem wrong_condition_is_rejected (now : Z) (request : Buffer) (ilp : IlpPrepare) :
  deserializeIlpPrepare request = Ok ilp ->
  executionCondition ilp <> PEER_PROTOCOL_CONDITION ->
  (destination ilp = CCP_CONTROL_DESTINATION ->
     deserializeCcpRouteControlRequest deserializeIlpPrepare now request
     = Throw (Error (js "packet does not contain correct condition for a peer protocol request.")))
  /\ (destination ilp = CCP_UPDATE_DESTINATION ->
     deserializeCcpRouteUpdateRequest deserializeIlpPrepare now request
     = Throw (Error (js "packet does not contain correct condition for a peer protocol request."))).
Proof.
  intros Hd Hcond.
  assert (Hne : buffer_equals PEER_PROTOCOL_CONDITION (executionCondition ilp) = false).
  { apply buffer_equals_neq. congruence. }
  split; intros Hdest.
  - unfold deserializeCcpRouteControlRequest. rewrite Hd. cbn [bind].
    rewrite Hdest. unfold string_eqb. rewrite buffer_equals_refl. cbn [negb].
    now rewrite Hne.
  - unfold deserializeCcpRouteUpdateRequest. rewrite Hd. cbn [bind].
    rewrite Hdest. unfold string_eqb. rewrite buffer_equals_refl. cbn [negb].
    now rewrite Hne.
Qed.

Lemma withEpochs_valid (u : CcpRouteUpdateRequest) (current from to : Z) :
  validUpdate u = true ->
  isUInt32 current = true -> isUInt32 from = true -> isUInt32 to = true ->
  validUpdate (withEpochs u current from to) = true.
Proof.
  intros H Hc Hf Ht.
  apply validUpdate_parts in H as (Hid & _ & _ & _ & Hnl & Hn & Hwl & Hw).
  unfold validUpdate, withEpochs. cbn.
  now rewrite Hid, Hc, Hf, Ht, Hnl, Hn, Hwl, Hw.
Qed.

(** C9. The codec places no condition on how the three epoch indices
    relate: a valid update request stays encodable when its epoch
    indices are replaced by any three values of the unsigned 32-bit
    range (fromEpochIndex above toEpochIndex included).  The payload then
    holds, after the sixteen identifier bytes, the three values as
    big-endian 32-bit words in the order current, from, to, and decoding
    within the expiry window reads the same three values back. *)
Theorem epoch_order_is_not_checked
    (now now' : Z) (u : CcpRouteUpdateRequest) (current from to : Z) :
  validUpdate u = true ->
  isUInt32 current = true -> isUInt32 from = true -> isUInt32 to = true ->
  (forall payload,
      envelopeRoundTripsOn serializeIlpPrepare deserializeIlpPrepare
        (peerPrepare CCP_UPDATE_DESTINATION
                     (now + PEER_PROTOCOL_EXPIRY_DURATION) payload)) ->
  now' <= now + PEER_PROTOCOL_EXPIRY_DURATION ->
  writeUpdatePayload (withEpochs u current from to)
  = Ok (uuidWire (routingTableId u)
          ++ Oer.uintBE 4 current ++ Oer.uintBE 4 from ++ Oer.uintBE 4 to
          ++ updateTail u)
  /\ exists request decoded,
      serializeCcpRouteUpdateRequest serializeIlpPrepare now
        (withEpochs u current from to) = Ok request
      /\ deserializeCcpRouteUpdateRequest deserializeIlpPrepare now' request
         = Ok decoded
      /\ currentEpochIndex decoded = current
      /\ fromEpochIndex decoded = from
      /\ toEpochIndex decoded = to.
Proof.
  intros Hv Hc Hf Ht Henv Hnow.
  pose proof (withEpochs_valid u current from to Hv Hc Hf Ht) as Hv'.
  split.
  - rewrite writeUpdatePayload_ok by assumption. reflexivity.
  - destruct (update_roundtrip_core now now' _ Hv' Henv Hnow)
      as (request & Hser & Hdeser).
    exists request, (withEpochs u current from to).
    repeat split; assumption.
Qed.

(** C10. The request decoders do not look at the envelope's amount: two
    buffers that unwrap to envelopes with the same destination,
    condition, expiry and data give the same result, record or error, in
    each decoder.  So an unexpired, well-formed CCP packet is decoded to
    its record whatever amount its envelope carries. *)
Theorem amount_is_ignored
    (now : Z) (request1 request2 : Buffer) (ilp1 ilp2 : IlpPrepare) :
  deserializeIlpPrepare request1 = Ok ilp1 ->
  deserializeIlpPrepare request2 = Ok ilp2 ->
  sameButAmount ilp1 ilp2 ->
  deserializeCcpRouteControlRequest deserializeIlpPrepare now request1
  = deserializeCcpRouteControlRequest deserializeIlpPrepare now request2
  /\ deserializeCcpRouteUpdateRequest deserializeIlpPrepare now request1
     = deserializeCcpRouteUpdateRequest deserializeIlpPrepare now request2
  /\ (forall r,
        validControl r = true -> data ilp1 = controlWire r ->
        destination ilp1 = CCP_CONTROL_DESTINATION ->
        executionCondition ilp1 = PEER_PROTOCOL_CONDITION ->
        now <= expiresAt ilp1 ->
        deserializeCcpRouteControlRequest deserializeIlpPrepare now request2 = Ok r)
  /\ (forall u,
        validUpdate u = true -> data ilp1 = updateWire u ->
        destination ilp1 = CCP_UPDATE_DESTINATION ->
        executionCondition ilp1 = PEER_PROTOCOL_CONDITION ->
        now <= expiresAt ilp1 ->
        deserializeCcpRouteUpdateRequest deserializeIlpPrepare now request2 = Ok u).
Proof.
  intros H1 H2 (Hdest & Hcond & Hexp & Hdata).
  split; [|split; [|split]].
  - unfold deserializeCcpRouteControlRequest.
    rewrite H1, H2. cbn [bind]. now rewrite Hdest, Hcond, Hexp, Hdata.
  - unfold deserializeCcpRouteUpdateRequest.
    rewrite H1, H2. cbn [bind]. now rewrite Hdest, Hcond, Hexp, Hdata.
  - intros r Hv Hwire Hd Hc He.
    rewrite (control_checks_pass now request2 ilp2 H2) by congruence.
    rewrite <- Hdata, Hwire. now apply readControlPayload_ok.
  - intros u Hv Hwire Hd Hc He.
    rewrite (update_checks_pass now request2 ilp2 H2) by congruence.
    rewrite <- Hdata, Hwire. now apply readUpdatePayload_ok.
Qed.

End Claims.

(* ===================================================================== *)
(** ** The properties on concrete requests *)
(* ===================================================================== *)

(** The constant of line 8 is the SHA-256 digest of 32 zero bytes. *)
Example peer_protocol_condition_bytes :
  PEER_PROTOCOL_CONDITION
  = [0x66; 0x68; 0x7a; 0xad; 0xf8; 0x62; 0xbd; 0x77; 0x6c; 0x8f; 0xc1; 0x8b;
     0x8e; 0x9f; 0x8e; 0x20; 0x08; 0x97; 0x14; 0x85; 0x6e; 0xe2; 0x33; 0xb3;
     0x90; 0x2a; 0x59; 0x1d; 0x0d; 0x5f; 0x29; 0x25].
Proof. reflexivity. Qed.

(** The route of the specification's example: its property's metadata
    byte is 0x80 and the route reads back from its encoding. *)
Example eu_route_bytes :
  writeRoute [] euRoute
  = Ok ([4; 103; 46; 101; 117] ++ [1; 0] ++ repeat 0 32 ++ [1; 1]
          ++ [0x80; 0; 0; 0])
  /\ readRoute (routeWire euRoute) = Ok (euRoute, []).
Proof. split; reflexivity. Qed.

(** The OER layouts on small values: a zero count, a three-byte
    integer, the short and the long length prefix, and a length prefix
    that is longer than it need be. *)
Example oer_layouts :
  Oer.writeVarUInt [] 0 = Ok [1; 0]
  /\ Oer.writeVarUInt [] 65536 = Ok [3; 1; 0; 0]
  /\ Oer.writeUInt32 [] 4294967296 = Throw (OerError UIntDoesNotFit)
  /\ lengthPrefix 127 = [127]
  /\ lengthPrefix 128 = [0x81; 0x80]
  /\ lengthPrefix 300 = [0x82; 1; 44]
  /\ Oer.readVarOctetString (0x81 :: 5 :: repeat 0 5)
     = Throw (OerError LengthPrefixNotCanonical)
  /\ Oer.readVarOctetString (varOctetString (repeat 7 300) ++ [9])
     = Ok (repeat 7 300, [9]).
Proof. repeat (split; [vm_compute; reflexivity|]). vm_compute. reflexivity. Qed.

(** The identifier codec on the all-zero identifier and on a mixed-case
    one, which is read back in lowercase. *)
Example uuid_layouts :
  Uuid.writeUuid [] ZERO_UUID = Ok (repeat 0 16)
  /\ Uuid.readUuid (repeat 0 16) = Ok (ZERO_UUID, [])
  /\ Uuid.writeUuid [] (js "not-a-uuid") = Throw (FormatError (js "not-a-uuid"))
  /\ mapFst Uuid.format
       (Oer.read (uuidWire (js "21E55F8E-ABCD-4e97-9ab9-bf0ff00a224c")) 16)
     = Ok (js "21e55f8e-abcd-4e97-9ab9-bf0ff00a224c", []).
Proof. repeat (split; [vm_compute; reflexivity|]). vm_compute. reflexivity. Qed.

Ltac run := vm_compute; first [reflexivity | discriminate | (intros ?; discriminate)].

Lemma update_request_roundtrip_witness :
  validUpdate sampleUpdate = true
  /\ exists request,
      serializeCcpRouteUpdateRequest Loopback.serializeIlpPrepare 1000 sampleUpdate
      = Ok request
      /\ deserializeCcpRouteUpdateRequest Loopback.deserializeIlpPrepare 61000 request
         = Ok sampleUpdate.
Proof.
  split; [run|].
  apply (update_request_roundtrip
           Loopback.serializeIlpPrepare Loopback.deserializeIlpPrepare
           1000 61000 sampleUpdate).
  - run.
  - intros payload. apply loopback_prepare_roundtrip.
  - run.
Defined.

Lemma control_request_roundtrip_witness :
  validControl aliceControl = true
  /\ exists request,
      serializeCcpRouteControlRequest Loopback.serializeIlpPrepare 0 aliceControl
      = Ok request
      /\ deserializeCcpRouteControlRequest Loopback.deserializeIlpPrepare 1000 request
         = Ok aliceControl.
Proof.
  split; [run|].
  apply (control_request_roundtrip
           Loopback.serializeIlpPrepare Loopback.deserializeIlpPrepare
           0 1000 aliceControl).
  - run.
  - intros payload. apply loopback_prepare_roundtrip.
  - run.
Defined.

(** C2, as stated, fails at the expiry instant: the example request,
    encoded at time 0, expires at 60000, and decoding it when the
    current time is 60000 returns the record. *)
Lemma not_expired_at_expiry_instant :
  serializeCcpRouteControlRequest Loopback.serializeIlpPrepare 0 aliceControl
  = Ok aliceRequest
  /\ Loopback.deserializeIlpPrepare aliceRequest = Ok alicePrepare
  /\ expiresAt alicePrepare <= 60000
  /\ deserializeCcpRouteControlRequest Loopback.deserializeIlpPrepare 60000 aliceRequest
     = Ok aliceControl
  /\ deserializeCcpRouteControlRequest Loopback.deserializeIlpPrepare 60000 aliceRequest
     <> Throw (Error (js "CCP route control request packet is expired.")).
Proof. split; [run | split; [run | split; [run | split; run]]]. Qed.

Lemma expired_after_expiry_witness :
  Loopback.deserializeIlpPrepare aliceRequest = Ok alicePrepare
  /\ expiresAt alicePrepare < 60001
  /\ deserializeCcpRouteControlRequest Loopback.deserializeIlpPrepare 60001 aliceRequest
     = Throw (Error (js "CCP route control request packet is expired.")).
Proof.
  assert (Hd : Loopback.deserializeIlpPrepare aliceRequest = Ok alicePrepare) by run.
  assert (Hlt : expiresAt alicePrepare < 60001) by run.
  assert (Hcond : executionCondition alicePrepare = PEER_PROTOCOL_CONDITION)
    by reflexivity.
  assert (Hdest : destination alicePrepare = CCP_CONTROL_DESTINATION)
    by reflexivity.
  split; [exact Hd|]. split; [exact Hlt|].
  destruct (expired_after_expiry Loopback.deserializeIlpPrepare
              60001 aliceRequest alicePrepare Hd Hcond) as [Hc _].
  destruct (Hc Hdest) as [Hlate _]. apply Hlate. exact Hlt.
Defined.

(** C3, as stated, fails in two ways.  When two routes have a wrong
    auth, the error names the first only: the second route of
    [twoShortAuths] has a 3-byte auth, and the message ends in "g.a",
    which does not include "g.b".  And when an earlier write fails, no
    route is named: [shortAuthNegativeEpoch] has a route with an empty
    auth behind an epoch of -1, and the error is the writer's. *)
Lemma wrong_auth_route_is_not_always_named :
  (In shortAuthB (newRoutes twoShortAuths)
   /\ length (auth shortAuthB) <> 32%nat
   /\ serializeCcpRouteUpdateRequest Loopback.serializeIlpPrepare 0 twoShortAuths
      = Throw (Error (js "route auth must be 32 bytes. prefix=g.a"))
   /\ ~ Includes (js "route auth must be 32 bytes. prefix=g.a") (prefix shortAuthB))
  /\ (In shortAuthA (newRoutes shortAuthNegativeEpoch)
      /\ length (auth shortAuthA) <> 32%nat
      /\ serializeCcpRouteUpdateRequest Loopback.serializeIlpPrepare 0
           shortAuthNegativeEpoch
         = Throw (OerError UIntNegative)).
Proof.
  split.
  - split; [right; left; reflexivity|]. split; [run|]. split; [run|].
    intros H. apply Includes_includes in H. vm_compute in H. discriminate.
  - split; [left; reflexivity|]. split; run.
Qed.

Lemma wrong_auth_is_rejected_witness :
  newRoutes laterShortAuth = [accentedRoute] ++ shortAuthB :: [shortAuthA]
  /\ length (auth shortAuthB) <> 32%nat
  /\ validUpdate laterShortAuth = false
  /\ (exists w w' w'',
        writeUpdateHeader laterShortAuth = Ok w
        /\ writeEach writeRoute w [accentedRoute] = Ok w'
        /\ writeRouteBeforeAuth w' shortAuthB = Ok w'')
  /\ serializeCcpRouteUpdateRequest Loopback.serializeIlpPrepare 0 laterShortAuth
     = Throw (Error (js "route auth must be 32 bytes. prefix=g.b")).
Proof.
  assert (Ha : length (auth shortAuthB) <> 32%nat) by run.
  assert (Hw : exists w w' w'',
             writeUpdateHeader laterShortAuth = Ok w
             /\ writeEach writeRoute w [accentedRoute] = Ok w'
             /\ writeRouteBeforeAuth w' shortAuthB = Ok w'').
  { do 3 eexists. split; [lazy; reflexivity|]. split; lazy; reflexivity. }
  split; [reflexivity|]. split; [exact Ha|]. split; [run|]. split; [exact Hw|].
  destruct Hw as (w & w' & w'' & Hh & Hb & Hr).
  destruct (wrong_auth_is_rejected Loopback.serializeIlpPrepare 0 laterShortAuth)
    as [_ H].
  destruct (H [accentedRoute] shortAuthB [shortAuthA] eq_refl Ha) as [Hgiven _].
  destruct (Hgiven w w' w'' Hh Hb Hr) as [Hthrow _].
  exact Hthrow.
Defined.

Lemma response_fulfillment_is_checked_witness :
  deserializeCcpResponse Loopback.deserializeIlpFulfill
    (Loopback.fulfillBytes zeroFulfill) = Ok tt
  /\ deserializeCcpResponse Loopback.deserializeIlpFulfill
       (Loopback.fulfillBytes otherFulfill)
     = Throw (Error (js "CCP response does not contain the expected fulfillment.")).
Proof.
  destruct (response_fulfillment_is_checked
              Loopback.serializeIlpFulfill Loopback.deserializeIlpFulfill)
    as [H _].
  assert (Hz : Loopback.deserializeIlpFulfill (Loopback.fulfillBytes zeroFulfill)
               = Ok zeroFulfill) by run.
  assert (Ho : Loopback.deserializeIlpFulfill (Loopback.fulfillBytes otherFulfill)
               = Ok otherFulfill) by run.
  split.
  - destruct (H _ _ Hz) as [_ Hok]. apply Hok. run.
  - destruct (H _ _ Ho) as [Hbad _]. apply Hbad. run.
Defined.

Lemma metadata_byte_witness :
  writeProp [] overFlagged = Ok [0x90; 0; 7; 2; 104; 105]
  /\ exists rest, [0x90; 0; 7; 2; 104; 105] = [] ++ propMeta overFlagged :: rest.
Proof.
  assert (Hw : writeProp [] overFlagged = Ok [0x90; 0; 7; 2; 104; 105]) by run.
  split; [exact Hw|].
  destruct (metadata_byte_respects_dependencies overFlagged) as (_ & _ & _ & H).
  apply H. exact Hw.
Defined.

Lemma wrong_destination_witness :
  Loopback.deserializeIlpPrepare (Loopback.prepareBytes aliceMisaddressed)
  = Ok aliceMisaddressed
  /\ destination aliceMisaddressed <> CCP_CONTROL_DESTINATION
  /\ deserializeCcpRouteControlRequest Loopback.deserializeIlpPrepare 0
       (Loopback.prepareBytes aliceMisaddressed)
     = Throw (TypeError (js "packet is not a CCP route control request.")).
Proof.
  assert (Hd : Loopback.deserializeIlpPrepare (Loopback.prepareBytes aliceMisaddressed)
               = Ok aliceMisaddressed) by run.
  assert (Hne : destination aliceMisaddressed <> CCP_CONTROL_DESTINATION) by run.
  split; [exact Hd|]. split; [exact Hne|].
  destruct (wrong_destination_is_rejected Loopback.deserializeIlpPrepare 0
              (Loopback.prepareBytes aliceMisaddressed) aliceMisaddressed Hd)
    as [Hc _].
  apply Hc. exact Hne.
Defined.

Lemma wrong_condition_witness :
  Loopback.deserializeIlpPrepare (Loopback.prepareBytes aliceForged) = Ok aliceForged
  /\ executionCondition aliceForged <> PEER_PROTOCOL_CONDITION
  /\ deserializeCcpRouteControlRequest Loopback.deserializeIlpPrepare 0
       (Loopback.prepareBytes aliceForged)
     = Throw (Error (js "packet does not contain correct condition for a peer protocol request.")).
Proof.
  assert (Hd : Loopback.deserializeIlpPrepare (Loopback.prepareBytes aliceForged)
               = Ok aliceForged) by run.
  assert (Hne : executionCondition aliceForged <> PEER_PROTOCOL_CONDITION) by run.
  split; [exact Hd|]. split; [exact Hne|].
  assert (Hdest : destination aliceForged = CCP_CONTROL_DESTINATION)
    by reflexivity.
  destruct (wrong_condition_is_rejected Loopback.deserializeIlpPrepare 0
              (Loopback.prepareBytes aliceForged) aliceForged Hd Hne)
    as [Hc _].
  apply Hc. exact Hdest.
Defined.

Lemma epoch_order_witness :
  validUpdate sampleUpdate = true
  /\ writeUpdatePayload (withEpochs sampleUpdate 5 9 3)
     = Ok (uuidWire (routingTableId sampleUpdate)
             ++ [0; 0; 0; 5] ++ [0; 0; 0; 9] ++ [0; 0; 0; 3]
             ++ updateTail sampleUpdate)
  /\ exists request decoded,
      serializeCcpRouteUpdateRequest Loopback.serializeIlpPrepare 0
        (withEpochs sampleUpdate 5 9 3) = Ok request
      /\ deserializeCcpRouteUpdateRequest Loopback.deserializeIlpPrepare 60000 request
         = Ok decoded
      /\ currentEpochIndex decoded = 5
      /\ fromEpochIndex decoded = 9
      /\ toEpochIndex decoded = 3.
Proof.
  split; [run|].
  apply (epoch_order_is_not_checked
           Loopback.serializeIlpPrepare Loopback.deserializeIlpPrepare
           0 60000 sampleUpdate 5 9 3).
  - run.
  - run.
  - run.
  - run.
  - intros payload. apply loopback_prepare_roundtrip.
  - run.
Defined.

Lemma amount_is_ignored_witness :
  sameButAmount alicePrepare alicePaid
  /\ amount alicePrepare <> amount alicePaid
  /\ deserializeCcpRouteControlRequest Loopback.deserializeIlpPrepare 0
       (Loopback.prepareBytes alicePaid) = Ok aliceControl
  /\ deserializeCcpRouteControlRequest Loopback.deserializeIlpPrepare 0 aliceRequest
     = deserializeCcpRouteControlRequest Loopback.deserializeIlpPrepare 0
         (Loopback.prepareBytes alicePaid).
Proof.
  assert (Hsame : sameButAmount alicePrepare alicePaid)
    by (split; [run | split; [run | split; run]]).
  assert (H1 : Loopback.deserializeIlpPrepare aliceRequest = Ok alicePrepare) by run.
  assert (H2 : Loopback.deserializeIlpPrepare (Loopback.prepareBytes alicePaid)
               = Ok alicePaid) by run.
  split; [exact Hsame|]. split; [run|]. split; [run|].
  destruct (amount_is_ignored Loopback.deserializeIlpPrepare 0
              aliceRequest (Loopback.prepareBytes alicePaid)
              alicePrepare alicePaid H1 H2 Hsame) as [Hc _].
  exact Hc.
Defined.

(* ===================================================================== *)
(** ** Readers are framed *)
(* ===================================================================== *)

Lemma Framed_ret {A} (x : A) : Framed (fun r => Ok (x, r)).
Proof.
  intros full y rest H. inversion H; subst. exists []. split; [reflexivity|].
  split; [reflexivity|].
  intros pre suffix E Hs. symmetry in E. apply app_eq_nil in E as [_ ->].
  contradiction.
Qed.

Lemma Framed_throw {A} (e : JsError) :
  Framed (fun _ : Oer.Reader => @Throw (A * Oer.Reader) e).
Proof. intros full y rest H. discriminate. Qed.

Lemma Framed_bind {A B}
    (rd1 : Oer.Reader -> Result (A * Oer.Reader))
    (rd2 : A -> Oer.Reader -> Result (B * Oer.Reader)) :
  Framed rd1 -> (forall x, Framed (rd2 x)) ->
  Framed (fun r => bind (rd1 r) (fun p => match p with (x, r') => rd2 x r' end)).
Proof.
  intros H1 H2 full y rest H.
  destruct (rd1 full) as [[x r1]|] eqn:E1; cbn [bind] in H; [|discriminate].
  destruct (H1 _ _ _ E1) as (c1 & Hfull & F1 & T1).
  destruct (H2 x _ _ _ H) as (c2 & Hr1 & F2 & T2).
  exists (c1 ++ c2). split; [subst; now rewrite app_assoc|]. split.
  - intros rest'. rewrite <- app_assoc, F1. cbn [bind]. apply F2.
  - intros pre suffix E Hs.
    apply app_eq_app in E as [l [[Hc1 Hsuf]|[Hpre Hc2]]].
    + destruct l as [|a l].
      * rewrite app_nil_r in Hc1. subst pre. simpl in Hsuf. subst suffix.
        rewrite <- (app_nil_r c1), F1. cbn [bind].
        apply (T2 [] c2); [reflexivity|assumption].
      * destruct (T1 pre (a :: l) Hc1 ltac:(discriminate)) as [e ->].
        cbn [bind]. eauto.
    + subst pre. rewrite F1. cbn [bind]. apply (T2 l suffix); assumption.
Qed.

Lemma Framed_ext {A} (rd rd' : Oer.Reader -> Result (A * Oer.Reader)) :
  (forall r, rd r = rd' r) -> Framed rd' -> Framed rd.
Proof.
  intros E H full x rest Hr. rewrite E in Hr.
  destruct (H _ _ _ Hr) as (c & Hfull & F & T).
  exists c. split; [assumption|]. split.
  - intros rest'. rewrite E. apply F.
  - intros pre suffix Hc Hs. rewrite E. now apply (T pre suffix).
Qed.

Lemma Framed_mapFst {A B} (f : A -> B)
    (rd : Oer.Reader -> Result (A * Oer.Reader)) :
  Framed rd -> Framed (fun r => mapFst f (rd r)).
Proof.
  intros H. unfold mapFst.
  apply (Framed_bind rd (fun a s => Ok (f a, s))); [assumption|].
  intros x. apply Framed_ret.
Qed.

Lemma split_at_length {A} (c rest : list A) (k : nat) :
  length c = k -> firstn k (c ++ rest) = c /\ skipn k (c ++ rest) = rest.
Proof.
  intros <-. split.
  - now rewrite firstn_app, Nat.sub_diag, firstn_all, firstn_O, app_nil_r.
  - now rewrite skipn_app, Nat.sub_diag, skipn_all.
Qed.

Lemma Framed_read (n : Z) : Framed (fun r => Oer.read r n).
Proof.
  intros full x rest H. unfold Oer.read in *.
  destruct (Z.ltb_spec (Z.of_nat (length full)) n) as [|Hlen]; [discriminate|].
  inversion H; subst; clear H.
  exists (firstn (Z.to_nat n) full).
  assert (Hc : length (firstn (Z.to_nat n) full) = Z.to_nat n)
    by (apply firstn_length_le; lia).
  split; [now rewrite firstn_skipn|]. split.
  - intros rest'. rewrite length_app, Hc.
    destruct (Z.ltb_spec (Z.of_nat (Z.to_nat n + length rest')) n); [lia|].
    destruct (split_at_length _ rest' _ Hc) as [-> ->]. reflexivity.
  - intros pre suffix E Hs.
    assert (Hl : (length pre < Z.to_nat n)%nat).
    { rewrite <- Hc, E, length_app. destruct suffix; [contradiction|]. simpl. lia. }
    destruct (Z.ltb_spec (Z.of_nat (length pre)) n); [eauto|lia].
Qed.

Lemma Framed_readUInt (len : Z) : Framed (fun r => Oer.readUInt r len).
Proof.
  unfold Oer.readUInt.
  destruct (len <=? 0); [apply Framed_throw|].
  destruct (Oer.MAX_INT_BYTES <? len); [apply Framed_throw|].
  apply (Framed_bind (fun r => Oer.read r len) (fun b r => Ok (Oer.readUIntBE b, r))).
  - apply Framed_read.
  - intros b. apply Framed_ret.
Qed.

Lemma Framed_readLengthPrefix : Framed Oer.readLengthPrefix.
Proof.
  unfold Oer.readLengthPrefix, Oer.readUInt8.
  apply (Framed_bind (fun r => Oer.readUInt r 1)
           (fun len r =>
              if Z.land len 0x80 =? 0 then Ok (len, r)
              else bind (Oer.readUInt r (Z.land len 0x7F))
                     (fun p => match p with
                               | (actualLength, r) =>
                                 if actualLength <?
                                    Z.max 128 (jsShiftLeft 1 ((Z.land len 0x7F - 1) * 8))
                                 then Throw (OerError LengthPrefixNotCanonical)
                                 else Ok (actualLength, r)
                               end))).
  - apply Framed_readUInt.
  - intros len. destruct (Z.land len 0x80 =? 0); [apply Framed_ret|].
    apply (Framed_bind (fun r => Oer.readUInt r (Z.land len 0x7F))
             (fun actualLength r =>
                if actualLength <?
                   Z.max 128 (jsShiftLeft 1 ((Z.land len 0x7F - 1) * 8))
                then Throw (OerError LengthPrefixNotCanonical)
                else Ok (actualLength, r))).
    + apply Framed_readUInt.
    + intros a. destruct (a <? _); [apply Framed_throw|apply Framed_ret].
Qed.

Lemma Framed_readVarOctetString : Framed Oer.readVarOctetString.
Proof.
  unfold Oer.readVarOctetString.
  apply (Framed_bind Oer.readLengthPrefix (fun len r => Oer.read r len)).
  - apply Framed_readLengthPrefix.
  - intros len. apply Framed_read.
Qed.

Lemma Framed_readVarUInt : Framed Oer.readVarUInt.
Proof.
  unfold Oer.readVarUInt.
  apply (Framed_bind Oer.readVarOctetString
           (fun b r =>
              if Z.of_nat (length b) =? 0 then Throw (OerError VarUIntEmpty)
              else if Oer.MAX_INT_BYTES <? Z.of_nat (length b)
                   then Throw (OerError VarUIntTooLarge)
                   else Ok (Oer.readUIntBE b, r))).
  - apply Framed_readVarOctetString.
  - intros b. destruct (Z.of_nat (length b) =? 0); [apply Framed_throw|].
    destruct (Oer.MAX_INT_BYTES <? Z.of_nat (length b));
      [apply Framed_throw|apply Framed_ret].
Qed.

Lemma Framed_readEach {A} (rd : Oer.Reader -> Result (A * Oer.Reader)) (n : nat) :
  Framed rd -> Framed (readEach rd n).
Proof.
  intros H. induction n as [|n IH].
  - apply (Framed_ret []).
  - cbn [readEach].
    apply (Framed_bind rd
             (fun x r => bind (readEach rd n r)
                           (fun p => match p with (xs, r) => Ok (x :: xs, r) end))).
    + assumption.
    + intros x.
      apply (Framed_bind (readEach rd n) (fun xs r => Ok (x :: xs, r))).
      * assumption.
      * intros xs. apply Framed_ret.
Qed.

Lemma Framed_readUuid : Framed Uuid.readUuid.
Proof.
  unfold Uuid.readUuid.
  apply (Framed_mapFst Uuid.format (fun r => Oer.read r 16)). apply Framed_read.
Qed.

Lemma Framed_readText (f : Buffer -> JsString) :
  Framed (fun reader => mapFst f (Oer.readVarOctetString reader)).
Proof. apply Framed_mapFst. apply Framed_readVarOctetString. Qed.

Ltac framed_step :=
  first
    [ apply Framed_ret
    | apply Framed_throw
    | apply Framed_readUuid
    | apply Framed_readVarUInt
    | apply Framed_readText
    | apply Framed_readUInt
    | apply Framed_read
    | apply Framed_readVarOctetString
    | apply Framed_readEach
    | match goal with
      | |- Framed (fun _ => if ?b then _ else _) => destruct b
      end
    | (apply Framed_bind; [|intros ?]) ].

Lemma Framed_readProp : Framed readProp.
Proof.
  unfold readProp, Oer.readUInt8, Oer.readUInt16. repeat framed_step.
Qed.

Lemma Framed_readRoute : Framed readRoute.
Proof.
  unfold readRoute. repeat framed_step.
Qed.

Lemma Framed_readControlFields : Framed readControlFields.
Proof.
  unfold readControlFields, Oer.readUInt32. repeat framed_step.
Qed.

Lemma Framed_readUpdateFields : Framed readUpdateFields.
Proof.
  unfold readUpdateFields, Oer.readUInt32. repeat framed_step.
Qed.

(** The payload readers return the record of the field readers. *)
Lemma readControlPayload_fields (payload : Buffer) :
  readControlPayload payload
  = bind (readControlFields payload) (fun p => Ok (fst p)).
Proof.
  unfold readControlPayload, readControlFields, Oer.newReader.
  repeat match goal with
         | |- bind ?m _ = bind (bind ?m _) _ =>
           destruct m as [[? ?]|]; cbn [bind]; [|reflexivity]
         end.
  reflexivity.
Qed.

Lemma readUpdatePayload_fields (payload : Buffer) :
  readUpdatePayload payload
  = bind (readUpdateFields payload) (fun p => Ok (fst p)).
Proof.
  unfold readUpdatePayload, readUpdateFields, Oer.newReader.
  repeat match goal with
         | |- bind ?m _ = bind (bind ?m _) _ =>
           destruct m as [[? ?]|]; cbn [bind]; [|reflexivity]
         end.
  reflexivity.
Qed.

(* ===================================================================== *)
(** ** Strings outside their range, and flags against the rule *)
(* ===================================================================== *)

Lemma readEach_map_ok {A} (valid : A -> bool) (f : A -> A)
    (readOne : Oer.Reader -> Result (A * Oer.Reader)) (wire : A -> Buffer) :
  (forall x rest, valid x = true -> readOne (wire x ++ rest) = Ok (f x, rest)) ->
  forall xs rest,
    forallb valid xs = true ->
    readEach readOne (length xs) (flat_map wire xs ++ rest) = Ok (map f xs, rest).
Proof.
  intros Hone xs. induction xs as [|x xs IH]; intros rest Hv; simpl; [reflexivity|].
  simpl in Hv. apply andb_prop in Hv as [Hx Hxs].
  rewrite <- app_assoc, Hone by assumption. cbn [bind].
  rewrite IH by assumption. reflexivity.
Qed.

Lemma land_127_range (x : Z) : 0 <= Z.land x 127 <= 127.
Proof.
  change 127 with (Z.ones 7) at 1 2. rewrite Z.land_ones by lia.
  pose proof (Z.mod_pos_bound x (2 ^ 7) ltac:(lia)). change (2 ^ 7) with 128 in *. lia.
Qed.

Lemma ascii_low_seven_bits (s : JsString) :
  toStringAscii (bufferFromAscii s) = map (fun c => Z.land c 127) s.
Proof.
  unfold toStringAscii, bufferFromAscii. rewrite map_map.
  apply map_ext. intros c. now rewrite <- Z.land_assoc.
Qed.

Lemma map_id_on {A} (f : A -> A) (valid : A -> bool) (xs : list A) :
  (forall x, valid x = true -> f x = x) -> forallb valid xs = true -> map f xs = xs.
Proof.
  intros Hf. induction xs as [|x xs IH]; simpl; [reflexivity|].
  intros H. apply andb_prop in H as [Hx Hxs]. now rewrite Hf, IH.
Qed.

Lemma readControlFields_any_speaker (r : CcpRouteControlRequest) (rest : Buffer) :
  validControlAnySpeaker r = true ->
  writeControlPayload r = Ok (controlWire r)
  /\ readControlFields (controlWire r ++ rest)
     = Ok (withSpeaker r (map (fun c => Z.land c 127) (speaker r)), rest).
Proof.
  unfold validControlAnySpeaker. rewrite !andb_true_iff.
  intros ((((Hs & Hid) & He) & Hfl) & Hf).
  destruct (uuidWire_canonical _ Hid) as (Hparse & Hlen & Hfmt).
  assert (Hsb : fitsOer (length (bufferFromAscii (speaker r))) = true)
    by now rewrite bufferFromAscii_length.
  split.
  - unfold writeControlPayload, controlWire, Oer.newWriter, Oer.getBuffer.
    rewrite writeVarOctetString_ok by assumption. cbn [bind].
    rewrite (writeUuid_ok _ _ _ Hparse). cbn [bind].
    rewrite writeUInt32_ok by assumption. cbn [bind].
    rewrite writeCount_ok by assumption. cbn [bind].
    rewrite (writeEach_ok isUnicodeText _ utf8Wire)
      by (assumption || (intros; now apply writeUtf8_ok)).
    cbn [bind]. rewrite <- ?app_assoc. reflexivity.
  - unfold readControlFields, controlWire, asciiWire, mapFst.
    rewrite <- ?app_assoc.
    rewrite readVarOctetString_ok by assumption. cbn [bind].
    rewrite ascii_low_seven_bits.
    rewrite readUuid_ok by assumption. cbn [bind]. rewrite Hfmt.
    rewrite readUInt32_ok by assumption. cbn [bind].
    rewrite readCount_ok by assumption. cbn [bind]. rewrite Nat2Z.id.
    rewrite (readEach_ok isUnicodeText _ utf8Wire)
      by (assumption || (intros; now apply readUtf8_ok)).
    cbn [bind]. reflexivity.
Qed.

Lemma readControlFields_ok (r : CcpRouteControlRequest) (rest : Buffer) :
  validControl r = true -> readControlFields (controlWire r ++ rest) = Ok (r, rest).
Proof.
  intros H. apply validControl_parts in H as (Hs & Hid & He & Hfl & Hf).
  pose proof Hs as Hs'. apply isAsciiText_parts in Hs' as [Hc _].
  unfold isAsciiText in Hs. apply andb_prop in Hs as [_ Hfit].
  destruct (readControlFields_any_speaker r rest) as [_ ->].
  - unfold validControlAnySpeaker. now rewrite Hfit, Hid, He, Hfl, Hf.
  - rewrite <- ascii_low_seven_bits, ascii_roundtrip by assumption.
    destruct r; reflexivity.
Qed.

Lemma readUpdateFields_any_withdrawn (u : CcpRouteUpdateRequest) (rest : Buffer) :
  validUpdateAnyWithdrawn u = true ->
  writeUpdatePayload u = Ok (updateWire u)
  /\ readUpdateFields (updateWire u ++ rest)
     = Ok (withWithdrawn u
             (map (fun s => toStringUtf8 (bufferFromAscii s)) (withdrawnRoutes u)),
           rest).
Proof.
  unfold validUpdateAnyWithdrawn. rewrite !andb_true_iff.
  intros (((((((Hid & Hc) & Hf) & Ht) & Hnl) & Hn) & Hwl) & Hw).
  destruct (uuidWire_canonical _ Hid) as (Hparse & Hlen & Hfmt).
  split.
  - unfold writeUpdatePayload, updateWire, updateTail, Oer.newWriter, Oer.getBuffer.
    rewrite (writeUuid_ok _ _ _ Hparse). cbn [bind].
    rewrite !writeUInt32_ok by assumption. cbn [bind].
    rewrite !writeUInt32_ok by assumption. cbn [bind].
    rewrite !writeUInt32_ok by assumption. cbn [bind].
    rewrite writeCount_ok by assumption. cbn [bind].
    rewrite (writeEach_ok validRoute _ routeWire)
      by (assumption || (intros; now apply writeRoute_ok)).
    cbn [bind].
    rewrite writeCount_ok by assumption. cbn [bind].
    rewrite (writeEach_ok (fun s => fitsOer (length s)) _ asciiWire).
    + cbn [bind]. rewrite <- ?app_assoc. reflexivity.
    + intros w x Hx. apply writeVarOctetString_ok.
      now rewrite bufferFromAscii_length.
    + assumption.
  - unfold readUpdateFields, updateWire, updateTail.
    rewrite <- ?app_assoc.
    rewrite readUuid_ok by assumption. cbn [bind]. rewrite Hfmt.
    rewrite readUInt32_ok by assumption. cbn [bind].
    rewrite readUInt32_ok by assumption. cbn [bind].
    rewrite readUInt32_ok by assumption. cbn [bind].
    rewrite readCount_ok by assumption. cbn [bind]. rewrite Nat2Z.id.
    rewrite (readEach_ok validRoute _ routeWire)
      by (assumption || (intros; now apply readRoute_ok)).
    cbn [bind].
    rewrite readCount_ok by assumption. cbn [bind]. rewrite Nat2Z.id.
    rewrite (readEach_map_ok (fun s => fitsOer (length s))
               (fun s => toStringUtf8 (bufferFromAscii s)) _ asciiWire).
    + cbn [bind]. reflexivity.
    + intros x rest0 Hx. unfold asciiWire, mapFst.
      rewrite readVarOctetString_ok by now rewrite bufferFromAscii_length.
      reflexivity.
    + assumption.
Qed.

Lemma readUpdateFields_ok (u : CcpRouteUpdateRequest) (rest : Buffer) :
  validUpdate u = true -> readUpdateFields (updateWire u ++ rest) = Ok (u, rest).
Proof.
  intros H.
  apply validUpdate_parts in H as (Hid & Hc & Hf & Ht & Hnl & Hn & Hwl & Hw).
  destruct (readUpdateFields_any_withdrawn u rest) as [_ ->].
  - unfold validUpdateAnyWithdrawn. rewrite Hid, Hc, Hf, Ht, Hnl, Hn, Hwl.
    cbn [andb]. clear - Hw.
    induction (withdrawnRoutes u) as [|s ws IH]; [reflexivity|].
    simpl in *. apply andb_prop in Hw as [Hs Hws].
    unfold isAsciiText in Hs. apply andb_prop in Hs as [_ ->]. now apply IH.
  - rewrite (map_id_on _ isAsciiText).
    + destruct u; reflexivity.
    + intros s Hs. apply isAsciiText_parts in Hs as [Hs _].
      now apply ascii_utf8_roundtrip.
    + assumption.
Qed.

(** *** Properties with flags against the dependency rule *)

Lemma keptFlags_consistent (c : CcpRoutePropCommon) :
  flagsConsistent (keptFlags c) = true.
Proof. destruct c as [[] [] []]; reflexivity. Qed.

Lemma propWire_withFlags (p : CcpRouteProp) :
  propWire (withFlags p (keptFlags (propCommon p))) = propWire p.
Proof. flag_cases p; reflexivity. Qed.

Lemma writeProp_withFlags (w : Oer.Writer) (p : CcpRouteProp) :
  writeProp w (withFlags p (keptFlags (propCommon p))) = writeProp w p.
Proof. flag_cases p; reflexivity. Qed.

Lemma validProp_withFlags (p : CcpRouteProp) :
  validPropValue p = true ->
  validProp (withFlags p (keptFlags (propCommon p))) = true.
Proof.
  unfold validPropValue, validProp. intros H.
  apply andb_prop in H as [Hid Hv].
  destruct p as [c i v|c i v]; cbn [withFlags propCommon propId] in *;
    now rewrite keptFlags_consistent, Hid, Hv.
Qed.

(** *** What the decoders' success implies *)

Lemma read_length (r : Oer.Reader) (n : Z) (b : Buffer) (r' : Oer.Reader) :
  0 <= n -> Oer.read r n = Ok (b, r') -> length b = Z.to_nat n.
Proof.
  unfold Oer.read. intros Hn H.
  destruct (Z.ltb_spec (Z.of_nat (length r)) n); [discriminate|].
  inversion H; subst. apply firstn_length_le. lia.
Qed.

Lemma toStringAscii_range (b : Buffer) :
  Forall (fun c => 0 <= c <= 127) (toStringAscii b).
Proof.
  unfold toStringAscii. induction b as [|x b IH]; simpl; constructor;
    [apply land_127_range|assumption].
Qed.

Lemma readEach_Forall {A} (P : A -> Prop)
    (rd : Oer.Reader -> Result (A * Oer.Reader)) :
  (forall r x r', rd r = Ok (x, r') -> P x) ->
  forall n r xs r', readEach rd n r = Ok (xs, r') -> Forall P xs.
Proof.
  intros HP n. induction n as [|n IH]; intros r xs r' H; cbn [readEach] in H.
  - inversion H. constructor.
  - destruct (rd r) as [[x r1]|] eqn:E1; cbn [bind] in H; [|discriminate].
    destruct (readEach rd n r1) as [[ys r2]|] eqn:E2; cbn [bind] in H; [|discriminate].
    inversion H; subst. constructor; eauto.
Qed.

Lemma readAscii_range (r : Oer.Reader) (s : JsString) (r' : Oer.Reader) :
  mapFst toStringAscii (Oer.readVarOctetString r) = Ok (s, r') ->
  Forall (fun c => 0 <= c <= 127) s.
Proof.
  unfold mapFst. destruct (Oer.readVarOctetString r) as [[b r1]|]; cbn [bind];
    [|discriminate].
  intros H. inversion H. apply toStringAscii_range.
Qed.

Lemma readRoute_shape (r : Oer.Reader) (route : CcpRoute) (r' : Oer.Reader) :
  readRoute r = Ok (route, r') -> decodedRouteShape route.
Proof.
  unfold readRoute. intros H.
  destruct (mapFst toStringAscii _) as [[pfx r1]|] eqn:E1; cbn [bind] in H;
    [|discriminate].
  destruct (Oer.readVarUInt r1) as [[n r2]|] eqn:E2; cbn [bind] in H; [|discriminate].
  destruct (readEach _ (Z.to_nat n) r2) as [[hops r3]|] eqn:E3; cbn [bind] in H;
    [|discriminate].
  destruct (Oer.read r3 32) as [[a r4]|] eqn:E4; cbn [bind] in H; [|discriminate].
  destruct (Oer.readVarUInt r4) as [[m r5]|] eqn:E5; cbn [bind] in H; [|discriminate].
  destruct (readEach readProp (Z.to_nat m) r5) as [[ps r6]|] eqn:E6;
    cbn [bind] in H; [|discriminate].
  inversion H; subst. unfold decodedRouteShape. cbn [auth prefix path].
  split; [|split].
  - change 32%nat with (Z.to_nat 32). apply (read_length r3 32 a r4); [lia|exact E4].
  - apply (readAscii_range _ _ _ E1).
  - apply (readEach_Forall _ _ (fun r x r' => readAscii_range r x r') _ _ _ _ E3).
Qed.

Lemma writeUInt32_rejects (w : Oer.Writer) (x : Z) :
  isUInt32 x = false -> exists f, Oer.writeUInt32 w x = Throw (OerError f).
Proof.
  unfold isUInt32. rewrite inRange_false. intros H.
  apply writeUInt_out_of_range; [lia|]. change (256 ^ 4) with 4294967296. lia.
Qed.

Lemma control_destination_is_not_update :
  CCP_CONTROL_DESTINATION <> CCP_UPDATE_DESTINATION.
Proof. vm_compute. discriminate. Qed.

(* ===================================================================== *)
(** ** Further properties of the codec *)
(* ===================================================================== *)

Section Further.

Variable serializeIlpPrepare : IlpPrepare -> Result Buffer.
Variable deserializeIlpPrepare : Buffer -> Result IlpPrepare.
Variable serializeIlpFulfill : IlpFulfill -> Result Buffer.
Variable deserializeIlpFulfill : Buffer -> Result IlpFulfill.

Lemma control_ok_inv (now : Z) (request : Buffer) (r : CcpRouteControlRequest) :
  deserializeCcpRouteControlRequest deserializeIlpPrepare now request = Ok r ->
  exists ilp,
    deserializeIlpPrepare request = Ok ilp
    /\ destination ilp = CCP_CONTROL_DESTINATION
    /\ executionCondition ilp = PEER_PROTOCOL_CONDITION
    /\ now <= expiresAt ilp
    /\ readControlPayload (data ilp) = Ok r.
Proof.
  unfold deserializeCcpRouteControlRequest, string_eqb.
  destruct (deserializeIlpPrepare request) as [ilp|]; cbn [bind]; [|discriminate].
  destruct (buffer_equals (destination ilp) _) eqn:Ed; cbn [negb]; [|discriminate].
  destruct (buffer_equals PEER_PROTOCOL_CONDITION _) eqn:Ec; cbn [negb]; [|discriminate].
  destruct (Z.ltb_spec (expiresAt ilp) now) as [|Hle]; [discriminate|].
  apply buffer_equals_eq in Ed, Ec. intros Hr. exists ilp. auto.
Qed.

Lemma update_ok_inv (now : Z) (request : Buffer) (u : CcpRouteUpdateRequest) :
  deserializeCcpRouteUpdateRequest deserializeIlpPrepare now request = Ok u ->
  exists ilp,
    deserializeIlpPrepare request = Ok ilp
    /\ destination ilp = CCP_UPDATE_DESTINATION
    /\ executionCondition ilp = PEER_PROTOCOL_CONDITION
    /\ now <= expiresAt ilp
    /\ readUpdatePayload (data ilp) = Ok u.
Proof.
  unfold deserializeCcpRouteUpdateRequest, string_eqb.
  destruct (deserializeIlpPrepare request) as [ilp|]; cbn [bind]; [|discriminate].
  destruct (buffer_equals (destination ilp) _) eqn:Ed; cbn [negb]; [|discriminate].
  destruct (buffer_equals PEER_PROTOCOL_CONDITION _) eqn:Ec; cbn [negb]; [|discriminate].
  destruct (Z.ltb_spec (expiresAt ilp) now) as [|Hle]; [discriminate|].
  apply buffer_equals_eq in Ed, Ec. intros Hr. exists ilp. auto.
Qed.

Lemma control_encoded_envelope (now : Z) (r : CcpRouteControlRequest) (request : Buffer) :
  (forall payload,
      envelopeRoundTripsOn serializeIlpPrepare deserializeIlpPrepare
        (peerPrepare CCP_CONTROL_DESTINATION
                     (now + PEER_PROTOCOL_EXPIRY_DURATION) payload)) ->
  serializeCcpRouteControlRequest serializeIlpPrepare now r = Ok request ->
  exists payload,
    writeControlPayload r = Ok payload
    /\ deserializeIlpPrepare request
       = Ok (peerPrepare CCP_CONTROL_DESTINATION
                         (now + PEER_PROTOCOL_EXPIRY_DURATION) payload).
Proof.
  intros Henv. unfold serializeCcpRouteControlRequest.
  destruct (writeControlPayload r) as [payload|]; cbn [bind]; [|discriminate].
  intros Hser. exists payload. split; [reflexivity|].
  destruct (Henv payload) as (request' & Hs & Hd).
  unfold peerPrepare in Hs. rewrite Hser in Hs. inversion Hs. subst. exact Hd.
Qed.

Lemma update_encoded_envelope (now : Z) (u : CcpRouteUpdateRequest) (request : Buffer) :
  (forall payload,
      envelopeRoundTripsOn serializeIlpPrepare deserializeIlpPrepare
        (peerPrepare CCP_UPDATE_DESTINATION
                     (now + PEER_PROTOCOL_EXPIRY_DURATION) payload)) ->
  serializeCcpRouteUpdateRequest serializeIlpPrepare now u = Ok request ->
  exists payload,
    writeUpdatePayload u = Ok payload
    /\ deserializeIlpPrepare request
       = Ok (peerPrepare CCP_UPDATE_DESTINATION
                         (now + PEER_PROTOCOL_EXPIRY_DURATION) payload).
Proof.
  intros Henv. unfold serializeCcpRouteUpdateRequest.
  destruct (writeUpdatePayload u) as [payload|]; cbn [bind]; [|discriminate].
  intros Hser. exists payload. split; [reflexivity|].
  destruct (Henv payload) as (request' & Hs & Hd).
  unfold peerPrepare in Hs. rewrite Hser in Hs. inversion Hs. subst. exact Hd.
Qed.

Lemma readControlPayload_extends (payload extra : Buffer) (r : CcpRouteControlRequest) :
  readControlPayload payload = Ok r -> readControlPayload (payload ++ extra) = Ok r.
Proof.
  rewrite !readControlPayload_fields.
  destruct (readControlFields payload) as [[x rest]|] eqn:E; cbn [bind]; [|discriminate].
  intros H. destruct (Framed_readControlFields _ _ _ E) as (c & -> & F & _).
  rewrite <- app_assoc, F. exact H.
Qed.

Lemma readUpdatePayload_extends (payload extra : Buffer) (u : CcpRouteUpdateRequest) :
  readUpdatePayload payload = Ok u -> readUpdatePayload (payload ++ extra) = Ok u.
Proof.
  rewrite !readUpdatePayload_fields.
  destruct (readUpdateFields payload) as [[x rest]|] eqn:E; cbn [bind]; [|discriminate].
  intros H. destruct (Framed_readUpdateFields _ _ _ E) as (c & -> & F & _).
  rewrite <- app_assoc, F. exact H.
Qed.

Lemma readControlPayload_truncated (r : CcpRouteControlRequest) (pre suffix : Buffer) :
  validControl r = true -> controlWire r = pre ++ suffix -> suffix <> [] ->
  exists e, readControlPayload pre = Throw e.
Proof.
  intros Hv Hw Hs. rewrite readControlPayload_fields.
  pose proof (readControlFields_ok r [] Hv) as E.
  destruct (Framed_readControlFields _ _ _ E) as (c & Hc & _ & T).
  apply app_inv_tail in Hc. subst c.
  destruct (T pre suffix Hw Hs) as [e ->]. cbn [bind]. eauto.
Qed.

Lemma readUpdatePayload_truncated (u : CcpRouteUpdateRequest) (pre suffix : Buffer) :
  validUpdate u = true -> updateWire u = pre ++ suffix -> suffix <> [] ->
  exists e, readUpdatePayload pre = Throw e.
Proof.
  intros Hv Hw Hs. rewrite readUpdatePayload_fields.
  pose proof (readUpdateFields_ok u [] Hv) as E.
  destruct (Framed_readUpdateFields _ _ _ E) as (c & Hc & _ & T).
  apply app_inv_tail in Hc. subst c.
  destruct (T pre suffix Hw Hs) as [e ->]. cbn [bind]. eauto.
Qed.

(** X1. Bytes after the last field of the payload are never looked at:
    when a request decodes to a record, a request whose envelope differs
    only in carrying more bytes after the same payload decodes to the
    same record. *)
Theorem trailing_bytes_are_ignored
    (now : Z) (request1 request2 : Buffer) (ilp1 ilp2 : IlpPrepare) (extra : Buffer) :
  deserializeIlpPrepare request1 = Ok ilp1 ->
  deserializeIlpPrepare request2 = Ok ilp2 ->
  destination ilp2 = destination ilp1 ->
  executionCondition ilp2 = executionCondition ilp1 ->
  expiresAt ilp2 = expiresAt ilp1 ->
  data ilp2 = data ilp1 ++ extra ->
  (forall r,
      deserializeCcpRouteControlRequest deserializeIlpPrepare now request1 = Ok r ->
      deserializeCcpRouteControlRequest deserializeIlpPrepare now request2 = Ok r)
  /\ (forall u,
      deserializeCcpRouteUpdateRequest deserializeIlpPrepare now request1 = Ok u ->
      deserializeCcpRouteUpdateRequest deserializeIlpPrepare now request2 = Ok u).
Proof.
  intros H1 H2 Hdest Hcond Hexp Hdata. split.
  - intros r Hr. apply control_ok_inv in Hr as (ilp & Hi & Hd & Hc & He & Hp).
    rewrite H1 in Hi. inversion Hi. subst ilp.
    rewrite (control_checks_pass deserializeIlpPrepare now request2 ilp2 H2)
      by congruence.
    rewrite Hdata. now apply readControlPayload_extends.
  - intros u Hu. apply update_ok_inv in Hu as (ilp & Hi & Hd & Hc & He & Hp).
    rewrite H1 in Hi. inversion Hi. subst ilp.
    rewrite (update_checks_pass deserializeIlpPrepare now request2 ilp2 H2)
      by congruence.
    rewrite Hdata. now apply readUpdatePayload_extends.
Qed.

(** X2. A payload cut short is never decoded: when the envelope's data
    is a proper prefix of the payload the encoder writes for a valid
    request, the decoder raises an error and returns no record. *)
Theorem truncated_payload_is_rejected
    (now : Z) (request : Buffer) (ilp : IlpPrepare) (suffix : Buffer) :
  deserializeIlpPrepare request = Ok ilp ->
  suffix <> [] ->
  (forall r,
      validControl r = true ->
      writeControlPayload r = Ok (data ilp ++ suffix) ->
      exists e,
        deserializeCcpRouteControlRequest deserializeIlpPrepare now request = Throw e)
  /\ (forall u,
      validUpdate u = true ->
      writeUpdatePayload u = Ok (data ilp ++ suffix) ->
      exists e,
        deserializeCcpRouteUpdateRequest deserializeIlpPrepare now request = Throw e).
Proof.
  intros Hd Hs. split.
  - intros r Hv Hw. rewrite writeControlPayload_ok in Hw by assumption.
    inversion Hw as [Hwire].
    destruct (readControlPayload_truncated r _ _ Hv Hwire Hs) as [e He].
    unfold deserializeCcpRouteControlRequest. rewrite Hd. cbn [bind].
    repeat match goal with |- context [if ?c then _ else _] => destruct c end;
      eauto.
  - intros u Hv Hw. rewrite writeUpdatePayload_ok in Hw by assumption.
    inversion Hw as [Hwire].
    destruct (readUpdatePayload_truncated u _ _ Hv Hwire Hs) as [e He].
    unfold deserializeCcpRouteUpdateRequest. rewrite Hd. cbn [bind].
    repeat match goal with |- context [if ?c then _ else _] => destruct c end;
      eauto.
Qed.

(** X3.  The two request kinds do not cross: whatever the control
    encoder returns, the update decoder rejects with its TypeError, and
    whatever the update encoder returns, the control decoder rejects with
    its TypeError.  In each half the envelope codec is assumed to
    round-trip on the envelopes that encoder builds. *)
Theorem other_decoder_rejects (now now' : Z) (request : Buffer) :
  ((forall payload,
       envelopeRoundTripsOn serializeIlpPrepare deserializeIlpPrepare
         (peerPrepare CCP_CONTROL_DESTINATION
                      (now + PEER_PROTOCOL_EXPIRY_DURATION) payload)) ->
   forall r,
     serializeCcpRouteControlRequest serializeIlpPrepare now r = Ok request ->
     deserializeCcpRouteUpdateRequest deserializeIlpPrepare now' request
     = Throw (TypeError (js "packet is not a CCP route update request.")))
  /\ ((forall payload,
          envelopeRoundTripsOn serializeIlpPrepare deserializeIlpPrepare
            (peerPrepare CCP_UPDATE_DESTINATION
                         (now + PEER_PROTOCOL_EXPIRY_DURATION) payload)) ->
      forall u,
        serializeCcpRouteUpdateRequest serializeIlpPrepare now u = Ok request ->
        deserializeCcpRouteControlRequest deserializeIlpPrepare now' request
        = Throw (TypeError (js "packet is not a CCP route control request."))).
Proof.
  split.
  - intros Henv r Hser.
    destruct (control_encoded_envelope now r request Henv Hser) as (payload & _ & Hd).
    unfold deserializeCcpRouteUpdateRequest. rewrite Hd. cbn [bind destination peerPrepare].
    unfold string_eqb.
    now rewrite (buffer_equals_neq _ _ control_destination_is_not_update).
  - intros Henv u Hser.
    destruct (update_encoded_envelope now u request Henv Hser) as (payload & _ & Hd).
    unfold deserializeCcpRouteControlRequest. rewrite Hd. cbn [bind destination peerPrepare].
    unfold string_eqb. rewrite buffer_equals_neq; [reflexivity|].
    intros E. symmetry in E. now apply control_destination_is_not_update.
Qed.

(** X4.  A request lives 60000 ms: whatever an encoder returns at time
    [now], the matching decoder raises the "expired" error at any time
    later than [now + 60000].  In each half the envelope codec is assumed
    to round-trip on the envelopes that encoder builds. *)
Theorem expired_after_window (now now' : Z) (request : Buffer) :
  now + 60000 < now' ->
  ((forall payload,
       envelopeRoundTripsOn serializeIlpPrepare deserializeIlpPrepare
         (peerPrepare CCP_CONTROL_DESTINATION
                      (now + PEER_PROTOCOL_EXPIRY_DURATION) payload)) ->
   forall r,
     serializeCcpRouteControlRequest serializeIlpPrepare now r = Ok request ->
     deserializeCcpRouteControlRequest deserializeIlpPrepare now' request
     = Throw (Error (js "CCP route control request packet is expired.")))
  /\ ((forall payload,
          envelopeRoundTripsOn serializeIlpPrepare deserializeIlpPrepare
            (peerPrepare CCP_UPDATE_DESTINATION
                         (now + PEER_PROTOCOL_EXPIRY_DURATION) payload)) ->
      forall u,
        serializeCcpRouteUpdateRequest serializeIlpPrepare now u = Ok request ->
        deserializeCcpRouteUpdateRequest deserializeIlpPrepare now' request
        = Throw (Error (js "CCP route update request packet is expired."))).
Proof.
  intros Hlate. split.
  - intros Henv r Hser.
    destruct (control_encoded_envelope now r request Henv Hser) as (payload & _ & Hd).
    unfold deserializeCcpRouteControlRequest. rewrite Hd.
    cbn [bind destination executionCondition expiresAt peerPrepare].
    unfold string_eqb. rewrite !buffer_equals_refl. cbn [negb].
    unfold PEER_PROTOCOL_EXPIRY_DURATION.
    destruct (Z.ltb_spec (now + 60000) now'); [reflexivity|lia].
  - intros Henv u Hser.
    destruct (update_encoded_envelope now u request Henv Hser) as (payload & _ & Hd).
    unfold deserializeCcpRouteUpdateRequest. rewrite Hd.
    cbn [bind destination executionCondition expiresAt peerPrepare].
    unfold string_eqb. rewrite !buffer_equals_refl. cbn [negb].
    unfold PEER_PROTOCOL_EXPIRY_DURATION.
    destruct (Z.ltb_spec (now + 60000) now'); [reflexivity|lia].
Qed.

(** X5. The acknowledgement round-trips: when the envelope codec
    round-trips on the fulfill envelope with 32 zero bytes and no data,
    the response encoder returns a buffer and the response decoder
    accepts it. *)
Theorem response_roundtrip :
  (exists response,
      serializeIlpFulfill
        {| Fulfill.fulfillment := repeat 0 32; Fulfill.data := [] |} = Ok response
      /\ deserializeIlpFulfill response
         = Ok {| Fulfill.fulfillment := repeat 0 32; Fulfill.data := [] |}) ->
  exists response,
    serializeCcpResponse serializeIlpFulfill = Ok response
    /\ deserializeCcpResponse deserializeIlpFulfill response = Ok tt.
Proof.
  intros (response & Hs & Hd). exists response. split; [exact Hs|].
  unfold deserializeCcpResponse. rewrite Hd. reflexivity.
Qed.

(** X6. The four low bits of a property's metadata byte are not read:
    the property decoder gives the same result on a metadata byte and on
    that byte with its low four bits cleared. *)
Theorem reserved_bits_are_ignored (meta : Z) (rest : Buffer) :
  readProp (meta :: rest) = readProp (Z.land meta 0xF0 :: rest).
Proof.
  unfold readProp. rewrite !readUInt8_cons. cbn [bind].
  rewrite <- !Z.land_assoc.
  change (Z.land 240 128) with 128. change (Z.land 240 64) with 64.
  change (Z.land 240 32) with 32. change (Z.land 240 16) with 16.
  reflexivity.
Qed.

(** X7. The encoder accepts any combination of flags and the decoder
    reads back the flags the encoder kept: for a property with an
    in-range id and value, encoding succeeds, and decoding the bytes
    gives the property with isTransitive cleared when isWellKnown is set
    and isPartial cleared unless isTransitive is set and isWellKnown is
    clear.  The flags come back unchanged exactly when they obey the
    dependency rule. *)
Theorem flags_are_normalised (writer : Oer.Writer) (prop : CcpRouteProp) :
  (validPropValue prop = true ->
   exists bytes,
     writeProp writer prop = Ok (writer ++ bytes)
     /\ forall rest,
         readProp (bytes ++ rest)
         = Ok (withFlags prop (keptFlags (propCommon prop)), rest))
  /\ (keptFlags (propCommon prop) = propCommon prop
      <-> flagsConsistent (propCommon prop) = true).
Proof.
  split.
  - intros Hv. pose proof (validProp_withFlags prop Hv) as Hv'.
    exists (propWire prop). split.
    + rewrite <- writeProp_withFlags, <- propWire_withFlags.
      now apply writeProp_ok.
    + intros rest. rewrite <- propWire_withFlags. now apply readProp_ok.
  - flag_cases prop; cbn [propCommon keptFlags flagsConsistent isWellKnown
                           isTransitive isPartial andb orb negb];
      split; intros H; first [reflexivity | discriminate H].
Qed.

(** X8. A speaker outside ASCII is not rejected but altered: for a
    control request that is valid but for its speaker, encoding succeeds
    and decoding within the expiry window returns the request with every
    code unit of the speaker reduced to its low seven bits.  The envelope
    codec is assumed to round-trip on the envelopes the encoder builds. *)
Theorem speaker_keeps_low_seven_bits (now now' : Z) (r : CcpRouteControlRequest) :
  validControlAnySpeaker r = true ->
  (forall payload,
      envelopeRoundTripsOn serializeIlpPrepare deserializeIlpPrepare
        (peerPrepare CCP_CONTROL_DESTINATION
                     (now + PEER_PROTOCOL_EXPIRY_DURATION) payload)) ->
  now' <= now + PEER_PROTOCOL_EXPIRY_DURATION ->
  exists request,
    serializeCcpRouteControlRequest serializeIlpPrepare now r = Ok request
    /\ deserializeCcpRouteControlRequest deserializeIlpPrepare now' request
       = Ok (withSpeaker r (map (fun c => Z.land c 127) (speaker r))).
Proof.
  intros Hv Henv Hnow.
  destruct (readControlFields_any_speaker r [] Hv) as [Hw Hr].
  destruct (Henv (controlWire r)) as (request & Hser & Hdeser).
  exists request. unfold serializeCcpRouteControlRequest.
  rewrite Hw. cbn [bind]. split; [exact Hser|].
  rewrite (control_checks_pass deserializeIlpPrepare now' request _ Hdeser)
    by (reflexivity || assumption).
  cbn [data peerPrepare]. rewrite readControlPayload_fields.
  rewrite app_nil_r in Hr. rewrite Hr. reflexivity.
Qed.

(** X9. Withdrawn routes are written with the ASCII encoding and read
    with the UTF-8 decoding: for an update request that is valid but for
    its withdrawn routes, encoding succeeds and decoding within the
    expiry window returns the request with each withdrawn route replaced
    by the UTF-8 reading of the low bytes of its code units.  The
    envelope codec is assumed to round-trip on the envelopes the encoder
    builds. *)
Theorem withdrawn_routes_read_as_utf8 (now now' : Z) (u : CcpRouteUpdateRequest) :
  validUpdateAnyWithdrawn u = true ->
  (forall payload,
      envelopeRoundTripsOn serializeIlpPrepare deserializeIlpPrepare
        (peerPrepare CCP_UPDATE_DESTINATION
                     (now + PEER_PROTOCOL_EXPIRY_DURATION) payload)) ->
  now' <= now + PEER_PROTOCOL_EXPIRY_DURATION ->
  exists request,
    serializeCcpRouteUpdateRequest serializeIlpPrepare now u = Ok request
    /\ deserializeCcpRouteUpdateRequest deserializeIlpPrepare now' request
       = Ok (withWithdrawn u
               (map (fun s => toStringUtf8 (bufferFromAscii s)) (withdrawnRoutes u))).
Proof.
  intros Hv Henv Hnow.
  destruct (readUpdateFields_any_withdrawn u [] Hv) as [Hw Hr].
  destruct (Henv (updateWire u)) as (request & Hser & Hdeser).
  exists request. unfold serializeCcpRouteUpdateRequest.
  rewrite Hw. cbn [bind]. split; [exact Hser|].
  rewrite (update_checks_pass deserializeIlpPrepare now' request _ Hdeser)
    by (reflexivity || assumption).
  cbn [data peerPrepare]. rewrite readUpdatePayload_fields.
  rewrite app_nil_r in Hr. rewrite Hr. reflexivity.
Qed.

(** X10. An epoch outside the unsigned 32-bit range is never encoded:
    when lastKnownEpoch, or any of currentEpochIndex, fromEpochIndex and
    toEpochIndex, is negative or above 4294967295, the encoder raises an
    error and returns no buffer. *)
Theorem epoch_out_of_range_is_rejected (now : Z) :
  (forall r,
      isUInt32 (lastKnownEpoch r) = false ->
      exists e, serializeCcpRouteControlRequest serializeIlpPrepare now r = Throw e)
  /\ (forall u,
      isUInt32 (currentEpochIndex u) && isUInt32 (fromEpochIndex u)
        && isUInt32 (toEpochIndex u) = false ->
      exists e, serializeCcpRouteUpdateRequest serializeIlpPrepare now u = Throw e).
Proof.
  split.
  - intros r He. unfold serializeCcpRouteControlRequest, writeControlPayload.
    destruct (Oer.writeVarOctetString _ _) as [w1|]; cbn [bind]; [|eauto].
    destruct (Uuid.writeUuid w1 _) as [w2|]; cbn [bind]; [|eauto].
    destruct (writeUInt32_rejects w2 _ He) as [f ->]. cbn [bind]. eauto.
  - intros u He. unfold serializeCcpRouteUpdateRequest, writeUpdatePayload.
    destruct (Uuid.writeUuid _ _) as [w1|]; cbn [bind]; [|eauto].
    destruct (isUInt32 (currentEpochIndex u)) eqn:Ec.
    2:{ destruct (writeUInt32_rejects w1 _ Ec) as [f ->]. cbn [bind]. eauto. }
    destruct (Oer.writeUInt32 w1 _) as [w2|]; cbn [bind]; [|eauto].
    destruct (isUInt32 (fromEpochIndex u)) eqn:Ef.
    2:{ destruct (writeUInt32_rejects w2 _ Ef) as [f ->]. cbn [bind]. eauto. }
    destruct (Oer.writeUInt32 w2 _) as [w3|]; cbn [bind]; [|eauto].
    cbn [andb] in He.
    destruct (writeUInt32_rejects w3 _ He) as [f ->]. cbn [bind]. eauto.
Qed.

(** X11. What a decoder returns is well-shaped: every route of a decoded
    update request has an auth of exactly 32 bytes and a prefix and hops
    made of 7-bit characters only, and the speaker of a decoded control
    request is made of 7-bit characters only. *)
Theorem decoded_records_shape (now : Z) (request : Buffer) :
  (forall u,
      deserializeCcpRouteUpdateRequest deserializeIlpPrepare now request = Ok u ->
      Forall decodedRouteShape (newRoutes u))
  /\ (forall r,
      deserializeCcpRouteControlRequest deserializeIlpPrepare now request = Ok r ->
      Forall (fun c => 0 <= c <= 127) (speaker r)).
Proof.
  split.
  - intros u Hu. apply update_ok_inv in Hu as (ilp & _ & _ & _ & _ & H).
    unfold readUpdatePayload, Oer.newReader in H.
    destruct (Uuid.readUuid _) as [[x1 r1]|]; cbn [bind] in H; [|discriminate].
    destruct (Oer.readUInt32 r1) as [[x2 r2]|]; cbn [bind] in H; [|discriminate].
    destruct (Oer.readUInt32 r2) as [[x3 r3]|]; cbn [bind] in H; [|discriminate].
    destruct (Oer.readUInt32 r3) as [[x4 r4]|]; cbn [bind] in H; [|discriminate].
    destruct (Oer.readVarUInt r4) as [[n r5]|]; cbn [bind] in H; [|discriminate].
    destruct (readEach readRoute _ r5) as [[routes r6]|] eqn:E;
      cbn [bind] in H; [|discriminate].
    destruct (Oer.readVarUInt r6) as [[m r7]|]; cbn [bind] in H; [|discriminate].
    destruct (readEach _ (Z.to_nat m) r7) as [[ws r8]|]; cbn [bind] in H; [|discriminate].
    inversion H. cbn [newRoutes].
    apply (readEach_Forall _ _ readRoute_shape _ _ _ _ E).
  - intros r Hr. apply control_ok_inv in Hr as (ilp & _ & _ & _ & _ & H).
    unfold readControlPayload, Oer.newReader in H.
    destruct (mapFst toStringAscii _) as [[s r1]|] eqn:E; cbn [bind] in H;
      [|discriminate].
    destruct (Uuid.readUuid r1) as [[x1 r2]|]; cbn [bind] in H; [|discriminate].
    destruct (Oer.readUInt32 r2) as [[x2 r3]|]; cbn [bind] in H; [|discriminate].
    destruct (Oer.readVarUInt r3) as [[n r4]|]; cbn [bind] in H; [|discriminate].
    destruct (readEach _ (Z.to_nat n) r4) as [[fs r5]|]; cbn [bind] in H; [|discriminate].
    inversion H. cbn [speaker]. apply (readAscii_range _ _ _ E).
Qed.

(** X12.  Each encoder is injective on valid records: two valid
    requests that encode to the same buffer are the same request, and
    two different valid requests encode to different buffers.  In each
    half the envelope codec is assumed to round-trip on the envelopes
    that encoder builds. *)
Theorem encoding_is_injective (now : Z) (request1 request2 : Buffer) :
  ((forall payload,
       envelopeRoundTripsOn serializeIlpPrepare deserializeIlpPrepare
         (peerPrepare CCP_CONTROL_DESTINATION
                      (now + PEER_PROTOCOL_EXPIRY_DURATION) payload)) ->
   forall r1 r2,
     validControl r1 = true -> validControl r2 = true ->
     serializeCcpRouteControlRequest serializeIlpPrepare now r1 = Ok request1 ->
     serializeCcpRouteControlRequest serializeIlpPrepare now r2 = Ok request2 ->
     (request1 = request2 -> r1 = r2) /\ (r1 <> r2 -> request1 <> request2))
  /\ ((forall payload,
          envelopeRoundTripsOn serializeIlpPrepare deserializeIlpPrepare
            (peerPrepare CCP_UPDATE_DESTINATION
                         (now + PEER_PROTOCOL_EXPIRY_DURATION) payload)) ->
      forall u1 u2,
        validUpdate u1 = true -> validUpdate u2 = true ->
        serializeCcpRouteUpdateRequest serializeIlpPrepare now u1 = Ok request1 ->
        serializeCcpRouteUpdateRequest serializeIlpPrepare now u2 = Ok request2 ->
        (request1 = request2 -> u1 = u2) /\ (u1 <> u2 -> request1 <> request2)).
Proof.
  assert (Hnow : now <= now + PEER_PROTOCOL_EXPIRY_DURATION)
    by (unfold PEER_PROTOCOL_EXPIRY_DURATION; lia).
  split.
  - intros Henv r1 r2 Hv1 Hv2 H1 H2.
    destruct (control_roundtrip_core serializeIlpPrepare deserializeIlpPrepare
                now now r1 Hv1 Henv Hnow) as (q1 & Hs1 & Hd1).
    destruct (control_roundtrip_core serializeIlpPrepare deserializeIlpPrepare
                now now r2 Hv2 Henv Hnow) as (q2 & Hs2 & Hd2).
    rewrite H1 in Hs1. rewrite H2 in Hs2.
    inversion Hs1. inversion Hs2. subst q1 q2.
    assert (Hinj : request1 = request2 -> r1 = r2) by (intros E; congruence).
    split; [exact Hinj|]. intros Hne E. now apply Hne, Hinj.
  - intros Henv u1 u2 Hv1 Hv2 H1 H2.
    destruct (update_roundtrip_core serializeIlpPrepare deserializeIlpPrepare
                now now u1 Hv1 Henv Hnow) as (q1 & Hs1 & Hd1).
    destruct (update_roundtrip_core serializeIlpPrepare deserializeIlpPrepare
                now now u2 Hv2 Henv Hnow) as (q2 & Hs2 & Hd2).
    rewrite H1 in Hs1. rewrite H2 in Hs2.
    inversion Hs1. inversion Hs2. subst q1 q2.
    assert (Hinj : request1 = request2 -> u1 = u2) by (intros E; congruence).
    split; [exact Hinj|]. intros Hne E. now apply Hne, Hinj.
Qed.

End Further.

(* ===================================================================== *)
(** ** The further properties on concrete requests *)
(* ===================================================================== *)

Lemma trailing_bytes_witness :
  data alicePrepareLater = data alicePrepare ++ [1; 2; 3]
  /\ deserializeCcpRouteControlRequest Loopback.deserializeIlpPrepare 0 aliceRequest
     = Ok aliceControl
  /\ deserializeCcpRouteControlRequest Loopback.deserializeIlpPrepare 0
       (Loopback.prepareBytes alicePrepareLater) = Ok aliceControl.
Proof.
  assert (H1 : Loopback.deserializeIlpPrepare aliceRequest = Ok alicePrepare) by run.
  assert (H2 : Loopback.deserializeIlpPrepare (Loopback.prepareBytes alicePrepareLater)
               = Ok alicePrepareLater) by run.
  assert (Hd : destination alicePrepareLater = destination alicePrepare) by run.
  assert (Hc : executionCondition alicePrepareLater = executionCondition alicePrepare)
    by run.
  assert (He : expiresAt alicePrepareLater = expiresAt alicePrepare) by run.
  assert (Hdata : data alicePrepareLater = data alicePrepare ++ [1; 2; 3]) by run.
  assert (Hr : deserializeCcpRouteControlRequest Loopback.deserializeIlpPrepare 0
                 aliceRequest = Ok aliceControl) by run.
  split; [exact Hdata|]. split; [exact Hr|].
  destruct (trailing_bytes_are_ignored Loopback.deserializeIlpPrepare 0
              aliceRequest (Loopback.prepareBytes alicePrepareLater)
              alicePrepare alicePrepareLater [1; 2; 3] H1 H2 Hd Hc He Hdata)
    as [Hcontrol _].
  apply Hcontrol. exact Hr.
Defined.

Lemma truncated_payload_witness :
  writeControlPayload aliceControl
  = Ok (data aliceTruncated ++ skipn 20 (controlWire aliceControl))
  /\ exists e,
      deserializeCcpRouteControlRequest Loopback.deserializeIlpPrepare 0
        (Loopback.prepareBytes aliceTruncated) = Throw e.
Proof.
  assert (Hd : Loopback.deserializeIlpPrepare (Loopback.prepareBytes aliceTruncated)
               = Ok aliceTruncated) by run.
  assert (Hs : skipn 20 (controlWire aliceControl) <> []) by run.
  assert (Hv : validControl aliceControl = true) by run.
  assert (Hw : writeControlPayload aliceControl
               = Ok (data aliceTruncated ++ skipn 20 (controlWire aliceControl)))
    by run.
  split; [exact Hw|].
  destruct (truncated_payload_is_rejected Loopback.deserializeIlpPrepare 0
              (Loopback.prepareBytes aliceTruncated) aliceTruncated
              (skipn 20 (controlWire aliceControl)) Hd Hs) as [Hcontrol _].
  exact (Hcontrol aliceControl Hv Hw).
Defined.

Lemma other_decoder_witness :
  serializeCcpRouteControlRequest Loopback.serializeIlpPrepare 0 aliceControl
  = Ok aliceRequest
  /\ deserializeCcpRouteUpdateRequest Loopback.deserializeIlpPrepare 0 aliceRequest
     = Throw (TypeError (js "packet is not a CCP route update request.")).
Proof.
  assert (Hs : serializeCcpRouteControlRequest Loopback.serializeIlpPrepare 0
                 aliceControl = Ok aliceRequest) by run.
  split; [exact Hs|].
  destruct (other_decoder_rejects
              Loopback.serializeIlpPrepare Loopback.deserializeIlpPrepare
              0 0 aliceRequest) as [Hcontrol _].
  exact (Hcontrol (fun payload => loopback_prepare_roundtrip _) aliceControl Hs).
Defined.

Lemma expired_after_window_witness :
  serializeCcpRouteControlRequest Loopback.serializeIlpPrepare 0 aliceControl
  = Ok aliceRequest
  /\ 0 + 60000 < 60001
  /\ deserializeCcpRouteControlRequest Loopback.deserializeIlpPrepare 60001 aliceRequest
     = Throw (Error (js "CCP route control request packet is expired.")).
Proof.
  assert (Hs : serializeCcpRouteControlRequest Loopback.serializeIlpPrepare 0
                 aliceControl = Ok aliceRequest) by run.
  assert (Hlate : 0 + 60000 < 60001) by run.
  split; [exact Hs|]. split; [exact Hlate|].
  destruct (expired_after_window
              Loopback.serializeIlpPrepare Loopback.deserializeIlpPrepare
              0 60001 aliceRequest Hlate)
    as [Hcontrol _].
  exact (Hcontrol (fun payload => loopback_prepare_roundtrip _) aliceControl Hs).
Defined.

Lemma response_roundtrip_witness :
  exists response,
    serializeCcpResponse Loopback.serializeIlpFulfill = Ok response
    /\ deserializeCcpResponse Loopback.deserializeIlpFulfill response = Ok tt.
Proof.
  apply (response_roundtrip Loopback.serializeIlpFulfill Loopback.deserializeIlpFulfill).
  exists (Loopback.fulfillBytes zeroFulfill). split; run.
Defined.

Lemma flags_are_normalised_witness :
  validPropValue overFlagged = true
  /\ flagsConsistent (propCommon overFlagged) = false
  /\ exists bytes,
      writeProp [] overFlagged = Ok ([] ++ bytes)
      /\ forall rest,
          readProp (bytes ++ rest)
          = Ok (withFlags overFlagged (keptFlags (propCommon overFlagged)), rest).
Proof.
  assert (Hv : validPropValue overFlagged = true) by run.
  split; [exact Hv|]. split; [run|].
  destruct (flags_are_normalised [] overFlagged) as [H _].
  exact (H Hv).
Defined.

Lemma speaker_low_seven_bits_witness :
  validControlAnySpeaker accentedControl = true
  /\ validControl accentedControl = false
  /\ exists request,
      serializeCcpRouteControlRequest Loopback.serializeIlpPrepare 0 accentedControl
      = Ok request
      /\ deserializeCcpRouteControlRequest Loopback.deserializeIlpPrepare 0 request
         = Ok (withSpeaker accentedControl [103; 46; 0x69; 0x2C]).
Proof.
  assert (Hv : validControlAnySpeaker accentedControl = true) by run.
  assert (Hnow : 0 <= 0 + PEER_PROTOCOL_EXPIRY_DURATION) by run.
  split; [exact Hv|]. split; [run|].
  destruct (speaker_keeps_low_seven_bits
              Loopback.serializeIlpPrepare Loopback.deserializeIlpPrepare
              0 0 accentedControl Hv
              (fun payload => loopback_prepare_roundtrip _) Hnow)
    as (request & Hs & Hd).
  exists request. split; [exact Hs|]. rewrite Hd. run.
Defined.

Lemma withdrawn_routes_witness :
  validUpdateAnyWithdrawn accentedWithdrawn = true
  /\ validUpdate accentedWithdrawn = false
  /\ exists request,
      serializeCcpRouteUpdateRequest Loopback.serializeIlpPrepare 0 accentedWithdrawn
      = Ok request
      /\ deserializeCcpRouteUpdateRequest Loopback.deserializeIlpPrepare 0 request
         = Ok (withWithdrawn accentedWithdrawn [[103; 46; 0xFFFD]; [0xE9]]).
Proof.
  assert (Hv : validUpdateAnyWithdrawn accentedWithdrawn = true) by run.
  assert (Hnow : 0 <= 0 + PEER_PROTOCOL_EXPIRY_DURATION) by run.
  split; [exact Hv|]. split; [run|].
  destruct (withdrawn_routes_read_as_utf8
              Loopback.serializeIlpPrepare Loopback.deserializeIlpPrepare
              0 0 accentedWithdrawn Hv
              (fun payload => loopback_prepare_roundtrip _) Hnow)
    as (request & Hs & Hd).
  exists request. split; [exact Hs|]. rewrite Hd. run.
Defined.

Lemma epoch_out_of_range_witness :
  isUInt32 (currentEpochIndex negativeEpoch) && isUInt32 (fromEpochIndex negativeEpoch)
    && isUInt32 (toEpochIndex negativeEpoch) = false
  /\ exists e,
      serializeCcpRouteUpdateRequest Loopback.serializeIlpPrepare 0 negativeEpoch
      = Throw e.
Proof.
  assert (He : isUInt32 (currentEpochIndex negativeEpoch)
                 && isUInt32 (fromEpochIndex negativeEpoch)
                 && isUInt32 (toEpochIndex negativeEpoch) = false) by run.
  split; [exact He|].
  destruct (epoch_out_of_range_is_rejected Loopback.serializeIlpPrepare 0) as [_ H].
  exact (H negativeEpoch He).
Defined.

Lemma decoded_records_shape_witness :
  deserializeCcpRouteUpdateRequest Loopback.deserializeIlpPrepare 0
    (Loopback.prepareBytes
       (peerPrepare CCP_UPDATE_DESTINATION 60000 (updateWire sampleUpdate)))
  = Ok sampleUpdate
  /\ Forall decodedRouteShape (newRoutes sampleUpdate).
Proof.
  assert (Hd : deserializeCcpRouteUpdateRequest Loopback.deserializeIlpPrepare 0
                 (Loopback.prepareBytes
                    (peerPrepare CCP_UPDATE_DESTINATION 60000 (updateWire sampleUpdate)))
               = Ok sampleUpdate) by run.
  split; [exact Hd|].
  destruct (decoded_records_shape Loopback.deserializeIlpPrepare 0
              (Loopback.prepareBytes
                 (peerPrepare CCP_UPDATE_DESTINATION 60000 (updateWire sampleUpdate))))
    as [H _].
  exact (H sampleUpdate Hd).
Defined.

Lemma encoding_is_injective_witness :
  validControl aliceControl = true
  /\ validControl sampleControl = true
  /\ aliceControl <> sampleControl
  /\ serializeCcpRouteControlRequest Loopback.serializeIlpPrepare 0 aliceControl
     = Ok aliceRequest
  /\ serializeCcpRouteControlRequest Loopback.serializeIlpPrepare 0 sampleControl
     = Ok (Loopback.prepareBytes
             (peerPrepare CCP_CONTROL_DESTINATION 60000 (controlWire sampleControl)))
  /\ aliceRequest
     <> Loopback.prepareBytes
          (peerPrepare CCP_CONTROL_DESTINATION 60000 (controlWire sampleControl)).
Proof.
  assert (Hv1 : validControl aliceControl = true) by run.
  assert (Hv2 : validControl sampleControl = true) by run.
  assert (Hne : aliceControl <> sampleControl) by run.
  assert (Hs1 : serializeCcpRouteControlRequest Loopback.serializeIlpPrepare 0
                  aliceControl = Ok aliceRequest) by run.
  assert (Hs2 : serializeCcpRouteControlRequest Loopback.serializeIlpPrepare 0
                  sampleControl
                = Ok (Loopback.prepareBytes
                        (peerPrepare CCP_CONTROL_DESTINATION 60000
                                     (controlWire sampleControl)))) by run.
  split; [exact Hv1|]. split; [exact Hv2|]. split; [exact Hne|].
  split; [exact Hs1|]. split; [exact Hs2|].
  destruct (encoding_is_injective
              Loopback.serializeIlpPrepare Loopback.deserializeIlpPrepare
              0 aliceRequest
              (Loopback.prepareBytes
                 (peerPrepare CCP_CONTROL_DESTINATION 60000
                              (controlWire sampleControl)))) as [H _].
  destruct (H (fun payload => loopback_prepare_roundtrip _)
              aliceControl sampleControl Hv1 Hv2 Hs1 Hs2) as [_ Hdiff].
  exact (Hdiff Hne).
Defined.
